(** * pubmed_bib: the BibTeX formatter of PubMed references

    A shallow embedding of [pubmed_bib.py].  Python strings are lists of
    characters, a JSON response is a record of optional keys, a raised
    exception is the [Raise] case of a result type, and the console and the
    files touched by the batch commands are threaded as an explicit world.

    Modelling conventions:
    - a character of the model is one byte: ASCII text is its own model and
      other text stands as its UTF-8 bytes.  The regular expressions, the
      concatenations and the template act on these bytes as Python acts on
      the characters, since their literals, the class [A-Z] and the line
      feed are ASCII and no byte of another character is an ASCII byte;
    - [str.title] and [str.rstrip] are modelled on ASCII text only
      ([ascii_text]): a statement that depends on what [title] computes has
      the hypothesis that the family name is ASCII text;
    - a response follows the CSL-JSON layout that the PubMed service returns:
      names, titles, volume, page and DOI are strings, [date-parts] is a list
      of lists of integers; every key may be absent. *)

From Stdlib Require Import Ascii String ZArith Bool Lia Arith.
From Stdlib Require Import Numbers.DecimalString.
From Stdlib Require Import List.
Import ListNotations.

Local Open Scope list_scope.

(** ** Strings *)

Definition str := list ascii.

(** A string literal of the source. *)
Definition lit (s : string) : str := list_ascii_of_string s.

Definition newline : ascii := "010"%char.

Definition is_upper (c : ascii) : bool :=
  (65 <=? nat_of_ascii c) && (nat_of_ascii c <=? 90).

Definition is_lower (c : ascii) : bool :=
  (97 <=? nat_of_ascii c) && (nat_of_ascii c <=? 122).

Definition is_alpha (c : ascii) : bool := is_upper c || is_lower c.

Definition to_upper (c : ascii) : ascii :=
  if is_lower c then ascii_of_nat (nat_of_ascii c - 32) else c.

Definition to_lower (c : ascii) : ascii :=
  if is_upper c then ascii_of_nat (nat_of_ascii c + 32) else c.

(** [str.isspace] on one ASCII character: tab, line feed, vertical tab, form
    feed, carriage return, the separators 28 to 31 and the space. *)
Definition is_space (c : ascii) : bool :=
  let n := nat_of_ascii c in
  ((9 <=? n) && (n <=? 13)) || ((28 <=? n) && (n <=? 32)).

Fixpoint drop_while (p : ascii -> bool) (s : str) : str :=
  match s with
  | [] => []
  | c :: s' => if p c then drop_while p s' else s
  end.

(** [s.rstrip()] *)
Definition rstrip (s : str) : str := rev (drop_while is_space (rev s)).

(** Every character is below 128. *)
Definition ascii_text (s : str) : Prop :=
  forallb (fun c => nat_of_ascii c <? 128) s = true.

(** [s.title()] for ASCII text [s]: a letter that follows a letter is
    lower-cased, any other letter is upper-cased.  (On other text
    [str.title] follows the Unicode tables, which this function does not:
    it is used under [ascii_text] only.) *)
Fixpoint title_from (prev_cased : bool) (s : str) : str :=
  match s with
  | [] => []
  | c :: s' =>
      (if prev_cased then to_lower c else to_upper c)
        :: title_from (is_alpha c) s'
  end.

Definition py_title (s : str) : str := title_from false s.

(** [sep.join(l)] *)
Fixpoint join (sep : str) (l : list str) : str :=
  match l with
  | [] => []
  | [x] => x
  | x :: l' => x ++ sep ++ join sep l'
  end.

(** [str(n)] for an integer. *)
Definition str_of_int (n : Z) : str := lit (NilZero.string_of_int (Z.to_int n)).

Fixpoint str_eqb (a b : str) : bool :=
  match a, b with
  | [], [] => true
  | x :: a', y :: b' => Ascii.eqb x y && str_eqb a' b'
  | _, _ => false
  end.

(** [pat] is a prefix of [s]. *)
Fixpoint prefixb (pat s : str) : bool :=
  match pat, s with
  | [], _ => true
  | x :: pat', y :: s' => Ascii.eqb x y && prefixb pat' s'
  | _ :: _, [] => false
  end.

(** [pat in s] *)
Fixpoint occursb (pat s : str) : bool :=
  prefixb pat s ||
  match s with
  | [] => false
  | _ :: s' => occursb pat s'
  end.

Definition occurs (pat s : str) : Prop :=
  exists l1 l2, s = l1 ++ pat ++ l2.

(** ** Exceptions *)

Inductive exn : Type :=
| IndexError
| KeyError
| TypeError
| AttributeError
| UnboundLocalError
| FileNotFoundError.

Inductive result (A : Type) : Type :=
| Ok (a : A)
| Raise (e : exn).

Arguments Ok {A} a.
Arguments Raise {A} e.

Definition bind {A B} (m : result A) (k : A -> result B) : result B :=
  match m with
  | Ok a => k a
  | Raise e => Raise e
  end.

Notation "x <- m ;; k" := (bind m (fun x => k))
  (at level 61, m at next level, right associativity).

(** ** The regular expressions of [re.sub]

    The three patterns of the program are a literal, one capturing group
    [(C+)] over a character class, and a literal.  The matcher is the
    backtracking one of [re]: the group first takes the longest run of the
    class and gives characters back one at a time until the rest of the
    pattern matches. *)

Inductive item : Type :=
| Lit (c : ascii)
| Group1Plus (cls : ascii -> bool).

Definition pattern := list item.

(** Length of the longest prefix of [s] inside the class. *)
Fixpoint span (cls : ascii -> bool) (s : str) : nat :=
  match s with
  | [] => 0
  | c :: s' => if cls c then S (span cls s') else 0
  end.

(** Try [n], [n-1], ..., [1]: the first that succeeds. *)
Fixpoint greedy {A} (f : nat -> option A) (n : nat) : option A :=
  match n with
  | O => None
  | S k =>
      match f n with
      | Some r => Some r
      | None => greedy f k
      end
  end.

(** A match anchored at the head of [s]: the text of group 1 and the number
    of characters consumed. *)
Fixpoint match_here (p : pattern) (s : str) : option (str * nat) :=
  match p with
  | [] => Some ([], 0)
  | Lit c :: p' =>
      match s with
      | x :: s' =>
          if Ascii.eqb x c then
            match match_here p' s' with
            | Some (g, n) => Some (g, S n)
            | None => None
            end
          else None
      | [] => None
      end
  | Group1Plus cls :: p' =>
      greedy (fun n =>
                match match_here p' (skipn n s) with
                | Some (_, m) => Some (firstn n s, n + m)
                | None => None
                end) (span cls s)
  end.

(** [re.sub] without a count: the string is scanned from the left, every
    match is replaced and the scan resumes behind it; [skip] counts the
    characters of the current match still to be passed over.  (All patterns
    of the program consume at least one character.) *)
Fixpoint sub_from (p : pattern) (repl : str -> str) (skip : nat) (s : str)
  : str :=
  match s with
  | [] => []
  | c :: s' =>
      match skip with
      | S k => sub_from p repl k s'
      | O =>
          match match_here p s with
          | Some (g, n) => repl g ++ sub_from p repl (pred n) s'
          | None => c :: sub_from p repl 0 s'
          end
      end
  end.

Definition re_sub (p : pattern) (repl : str -> str) (s : str) : str :=
  sub_from p repl 0 s.

(** [.] matches everything but a line feed. *)
Definition dot (c : ascii) : bool := negb (Ascii.eqb c newline).

(** ["<sub>(.+)</sub>"] and ["<sup>(.+)</sup>"] *)
Definition tag_pattern (open close : str) : pattern :=
  map Lit open ++ [Group1Plus dot] ++ map Lit close.

Definition sub_pattern : pattern := tag_pattern (lit "<sub>") (lit "</sub>").
Definition sup_pattern : pattern := tag_pattern (lit "<sup>") (lit "</sup>").

(** ["([A-Z]+)"] *)
Definition caps_pattern : pattern := [Group1Plus is_upper].

(** The replacement templates ["$_{\\1}$"], ["$^{\\1}$"] and ["{\\1}"]. *)
Definition sub_repl (g : str) : str := lit "$_{" ++ g ++ lit "}$".
Definition sup_repl (g : str) : str := lit "$^{" ++ g ++ lit "}$".
Definition caps_repl (g : str) : str := lit "{" ++ g ++ lit "}".

(** Lines 25, 26 and 28 of [format_reference]. *)
Definition sub_step (title : str) : str := re_sub sub_pattern sub_repl title.
Definition sup_step (title : str) : str := re_sub sup_pattern sup_repl title.
Definition caps_step (title : str) : str := re_sub caps_pattern caps_repl title.

Definition sanitize_title (title : str) : str :=
  caps_step (sup_step (sub_step title)).

(** ** The response of the PubMed service

    [requests.get(...).json()] is a dictionary; a key of the dictionary is a
    field that may be [None] (absent).  A reference that the service does not
    know is answered by a dictionary whose [status] is ["error"]. *)

Record Author : Type := {
  key_family : option str;
  key_given : option str
}.

Record DateVariable : Type := {
  key_date_parts : option (list (list Z))
}.

Record Reference : Type := {
  key_status : option str;
  key_title : option str;
  key_author : option (list Author);
  key_container_title : option str;
  key_container_title_short : option str;
  key_volume : option str;
  key_page : option str;
  key_DOI : option str;
  key_issued : option DateVariable;
  key_epub_date : option DateVariable
}.

(** ** [format_reference] *)

(** The local [authors]: the list under the key [author], or the empty string
    that line 30 substitutes when the key is absent. *)
Inductive authors_val : Type :=
| AuthorList (l : list Author)
| EmptyStr.

(** The local [ref_id] after line 54: a string, or the author dictionary
    itself. *)
Inductive ref_id_val : Type :=
| IdStr (s : str)
| IdDict (a : Author).

(** The locals that the template of lines 57 to 67 interpolates. *)
Record Entry : Type := {
  e_ref_id : str;
  e_title : str;
  e_author : str;
  e_journal_long : str;
  e_journal_short : str;
  e_volume : str;
  e_page : str;
  e_year : Z;
  e_doi : str
}.

(** [d.get(k) or ''] and [d.get(k, '')] on a string-valued key. *)
Definition get_or_empty (v : option str) : str :=
  match v with
  | Some s => s
  | None => []
  end.

(** One turn of the loop of lines 32 to 40: what is appended to
    [authorList], if anything. *)
Definition author_entry (author : Author) : option str :=
  match key_family author, key_given author with
  | Some f, Some g => Some (f ++ lit ", " ++ g)
  | Some f, None => Some f
  | None, Some g => Some g
  | None, None => None
  end.

Fixpoint author_loop (authors : list Author) : list str :=
  match authors with
  | [] => []
  | author :: rest =>
      match author_entry author with
      | Some s => s :: author_loop rest
      | None => author_loop rest
      end
  end.

(** Iterating over [authors]: the empty string has no element. *)
Definition authors_iter (authors : authors_val) : list Author :=
  match authors with
  | AuthorList l => l
  | EmptyStr => []
  end.

(** [d['date-parts'][0][0]] *)
Definition date_year (d : DateVariable) : result Z :=
  match key_date_parts d with
  | None => Raise KeyError
  | Some [] => Raise IndexError
  | Some ([] :: _) => Raise IndexError
  | Some ((y :: _) :: _) => Ok y
  end.

(** Lines 48 to 51: [None] when neither branch is taken and the local [year]
    stays unbound. *)
Definition extract_year (reference : Reference) : result (option Z) :=
  match key_issued reference with
  | Some d => y <- date_year d ;; Ok (Some y)
  | None =>
      match key_epub_date reference with
      | Some d => y <- date_year d ;; Ok (Some y)
      | None => Ok None
      end
  end.

(** Lines 53 and 54: [authors[0]] raises on the empty list and on the empty
    string alike. *)
Definition first_author_key (authors : authors_val) : result ref_id_val :=
  match authors with
  | EmptyStr => Raise IndexError
  | AuthorList [] => Raise IndexError
  | AuthorList (a :: _) =>
      match key_family a with
      | Some f => Ok (IdStr (py_title f))
      | None => Ok (IdDict a)
      end
  end.

(** Reading the local [year]. *)
Definition load_year (year : option Z) : result Z :=
  match year with
  | Some y => Ok y
  | None => Raise UnboundLocalError
  end.

(** [ref_id += s]: a dictionary has no addition. *)
Definition iadd_str (ref_id : ref_id_val) (s : str) : result str :=
  match ref_id with
  | IdStr t => Ok (t ++ s)
  | IdDict _ => Raise TypeError
  end.

(** Lines 22 to 55. *)
Definition format_entry (reference : str * Reference) : result Entry :=
  let '(id, reference) := reference in
  let title := get_or_empty (key_title reference) in
  let title := sub_step title in
  let title := sup_step title in
  let title := caps_step title in
  let authors :=
    match key_author reference with
    | Some l => AuthorList l
    | None => EmptyStr
    end in
  let authorList := author_loop (authors_iter authors) in
  let journal_long := get_or_empty (key_container_title reference) in
  let journal_short := get_or_empty (key_container_title_short reference) in
  let volume := get_or_empty (key_volume reference) in
  let page := get_or_empty (key_page reference) in
  let doi := get_or_empty (key_DOI reference) in
  year <- extract_year reference ;;
  ref_id <- first_author_key authors ;;
  y <- load_year year ;;
  ref_id <- iadd_str ref_id (str_of_int y) ;;
  Ok {| e_ref_id := ref_id;
        e_title := title;
        e_author := join (lit " and ") authorList;
        e_journal_long := journal_long;
        e_journal_short := journal_short;
        e_volume := volume;
        e_page := page;
        e_year := y;
        e_doi := doi |}.

Definition journal_label_1 (use_short : bool) : str :=
  if use_short then lit "journal-long" else lit "journal".

Definition journal_label_2 (use_short : bool) : str :=
  if use_short then lit "journal" else lit "journal-short".

(** The template up to the two journal lines, and behind them. *)
Definition entry_head (e : Entry) : str :=
  lit "@article{" ++ e_ref_id e ++ lit ",
    title = {" ++ e_title e ++ lit "},
    author = {" ++ e_author e ++ lit "},
".

Definition entry_tail (e : Entry) : str :=
  lit "    volume = {" ++ e_volume e ++ lit "},
    pages = {" ++ e_page e ++ lit "},
    year = {" ++ str_of_int (e_year e) ++ lit "},
    doi = {" ++ e_doi e ++ lit "}
}
".

Definition journal_lines (use_short : bool) (e : Entry) : str :=
  lit "    " ++ journal_label_1 use_short ++ lit " = {"
    ++ e_journal_long e ++ lit "},
    " ++ journal_label_2 use_short ++ lit " = {"
    ++ e_journal_short e ++ lit "},
".

(** Lines 57 to 67. *)
Definition render (use_short : bool) (e : Entry) : str :=
  entry_head e ++ journal_lines use_short e ++ entry_tail e.

Definition format_reference (reference : str * Reference) (use_short : bool)
  : result str :=
  e <- format_entry reference ;;
  Ok (render use_short e).

(** ** The console and the files *)

Record World : Type := {
  files : list (str * str);
  console : list str
}.

Fixpoint read_file (fs : list (str * str)) (path : str) : option str :=
  match fs with
  | [] => None
  | (p, content) :: fs' =>
      if str_eqb p path then Some content else read_file fs' path
  end.

(** The file at [path] becomes [f old], a new file [f []]. *)
Fixpoint update_file (fs : list (str * str)) (path : str) (f : str -> str)
  : list (str * str) :=
  match fs with
  | [] => [(path, f [])]
  | (p, content) :: fs' =>
      if str_eqb p path then (p, f content) :: fs'
      else (p, content) :: update_file fs' path f
  end.

(** [open(path, 'w')] *)
Definition truncate_file (path : str) (w : World) : World :=
  {| files := update_file (files w) path (fun _ => []);
     console := console w |}.

(** [open(path, 'a')] followed by [write(s)], and [write(s)] on a file
    already open for writing. *)
Definition append_file (path : str) (s : str) (w : World) : World :=
  {| files := update_file (files w) path (fun old => old ++ s);
     console := console w |}.

(** [click.echo] and [print]. *)
Definition echo (s : str) (w : World) : World :=
  {| files := files w; console := console w ++ [s] |}.

(** What a file opened for reading in text mode delivers: a carriage
    return, alone or in front of a line feed, is read as a line feed. *)
Fixpoint universal_newlines (s : str) : str :=
  match s with
  | [] => []
  | c :: s' =>
      if Ascii.eqb c "013"%char then
        match s' with
        | c' :: s'' =>
            if Ascii.eqb c' newline then newline :: universal_newlines s''
            else newline :: universal_newlines s'
        | [] => [newline]
        end
      else c :: universal_newlines s'
  end.

(** The lines of a text that has been read: each ends with its line feed,
    but the last one when the text does not end with a line feed. *)
Fixpoint split_lines (cur : str) (s : str) : list str :=
  match s with
  | [] =>
      match cur with
      | [] => []
      | _ => [rev cur]
      end
  | c :: s' =>
      if Ascii.eqb c newline then rev (c :: cur) :: split_lines [] s'
      else split_lines (c :: cur) s'
  end.

(** ** The commands *)

Section Commands.

(** The answer of the PubMed service to a query for an identifier:
    [requests.get(url_format, params = queryParams).json()]. *)
Variable api : str -> Reference.

Definition get_reference (id : str) : str * Reference := (id, api id).

(** ['status' in d.keys() and d['status'] == 'error'] on a response. *)
Definition not_found (response : Reference) : bool :=
  match key_status response with
  | Some s => str_eqb s (lit "error")
  | None => false
  end.

Definition show_reference (id : str) (use_short : bool) (w : World)
  : result unit * World :=
  let reference := get_reference id in
  if not_found (snd reference) then
    (Ok tt, echo (lit "Reference not found") w)
  else
    match format_reference reference use_short with
    | Ok output => (Ok tt, echo output w)
    | Raise e => (Raise e, w)
    end.

Definition save_reference (id path : str) (use_short : bool) (w : World)
  : result unit * World :=
  let reference := get_reference id in
  if not_found (snd reference) then
    (Ok tt, echo (lit "Reference not found") w)
  else
    let w := append_file path [] w in
    match format_reference reference use_short with
    | Ok output => (Ok tt, append_file path output w)
    | Raise e => (Raise e, w)
    end.

(** [ref.keys()] on the pair that [get_reference] returns: a tuple has no
    attribute [keys]. *)
Definition tuple_keys (ref : str * Reference) : result (list str) :=
  Raise AttributeError.

(** [ref['status']] on a tuple: the index of a tuple is an integer. *)
Definition tuple_getitem (ref : str * Reference) (key : str) : result str :=
  Raise TypeError.

(** [format_reference(ref)] of line 113: the parameter [use_short] has no
    default and receives no argument. *)
Definition format_reference_1 (ref : str * Reference) : result str :=
  Raise TypeError.

(** The condition of line 109. *)
Definition batch_not_found (ref : str * Reference) : result bool :=
  ks <- tuple_keys ref ;;
  if existsb (str_eqb (lit "status")) ks then
    st <- tuple_getitem ref (lit "status") ;;
    Ok (str_eqb st (lit "error"))
  else Ok false.

(** The loop of lines 107 to 115. *)
Fixpoint convert_loop (lines : list str) (output_file : str)
  (successNumber failNumber : Z) (w : World) : result (Z * Z) * World :=
  match lines with
  | [] => (Ok (successNumber, failNumber), w)
  | line :: lines' =>
      let ref := get_reference (rstrip line) in
      match batch_not_found ref with
      | Raise e => (Raise e, w)
      | Ok true =>
          let w := echo (lit "PMID " ++ rstrip line ++ lit " NOT FOUND") w in
          convert_loop lines' output_file successNumber (failNumber + 1) w
      | Ok false =>
          match format_reference_1 ref with
          | Raise e => (Raise e, w)
          | Ok ref =>
              let w := append_file output_file (ref ++ [newline]) w in
              convert_loop lines' output_file (successNumber + 1) failNumber w
          end
      end
  end.

Definition plural (n : Z) : str := if (1 <? n)%Z then lit "s" else [].

(** The report of lines 116 to 119. *)
Definition report (successNumber failNumber : Z) : str :=
  str_of_int successNumber ++ lit " reference" ++ plural successNumber
    ++ lit " " ++ lit "retrieved.
" ++ str_of_int failNumber ++ lit " reference" ++ plural failNumber
    ++ lit " " ++ lit "not found.".

Definition convert_references (input_file output_file : str) (w : World)
  : result unit * World :=
  match read_file (files w) input_file with
  | None => (Raise FileNotFoundError, w)
  | Some _ =>
      let w := truncate_file output_file w in
      let text :=
        universal_newlines (get_or_empty (read_file (files w) input_file)) in
      let lines := split_lines [] text in
      match convert_loop lines output_file 0 0 w with
      | (Raise e, w) => (Raise e, w)
      | (Ok (successNumber, failNumber), w) =>
          (Ok tt, echo (report successNumber failNumber) w)
      end
  end.

(** Truth of an optional command-line value. *)
Definition given_opt (o : option str) : option str :=
  match o with
  | Some (c :: s) => Some (c :: s)
  | _ => None
  end.

(** The command: line 140 passes three arguments to [convert_references],
    which has two parameters. *)
Definition pubMed2BibTex (id input_file output_file : option str)
  (short_journal : bool) (w : World) : result unit * World :=
  match given_opt id with
  | Some id =>
      match given_opt output_file with
      | Some output_file => save_reference id output_file short_journal w
      | None => show_reference id short_journal w
      end
  | None =>
      match given_opt input_file, given_opt output_file with
      | Some _, Some _ => (Raise TypeError, w)
      | _, _ => (Ok tt, w)
      end
  end.

End Commands.

(** ** Specification-level notions *)

(** [s] does not start with an upper-case letter. *)
Definition not_upper_head (s : str) : Prop :=
  match s with
  | [] => True
  | c :: _ => is_upper c = false
  end.

(** [brace_wrapped s t]: [t] is [s] with every maximal run of upper-case
    letters put between braces and every other character unchanged.  A run
    is maximal: it is followed by the end of the text or by another
    character, and what precedes it is the start of the text or another
    character (two runs are never adjacent). *)
Inductive brace_wrapped : str -> str -> Prop :=
| bw_end : brace_wrapped [] []
| bw_other c s t :
    is_upper c = false -> brace_wrapped s t ->
    brace_wrapped (c :: s) (c :: t)
| bw_run run s t :
    run <> [] -> forallb is_upper run = true -> not_upper_head s ->
    brace_wrapped s t ->
    brace_wrapped (run ++ s) (lit "{" ++ run ++ lit "}" ++ t).

(** The year that lines 48 to 51 find in a response: the first number of the
    first date part of [issued], or of [epub-date] when [issued] is absent. *)
Definition has_year (d : DateVariable) (y : Z) : Prop :=
  exists ys parts, key_date_parts d = Some ((y :: ys) :: parts).

Definition year_derivable (r : Reference) (y : Z) : Prop :=
  (exists d, key_issued r = Some d /\ has_year d y) \/
  (key_issued r = None /\ exists d, key_epub_date r = Some d /\ has_year d y).

(** The authors of a response in the order of the response, none when the
    key is absent. *)
Definition get_or_empty_list (r : Reference) : list Author :=
  match key_author r with
  | Some l => l
  | None => []
  end.

(** The first author of a response, when there is one. *)
Definition first_author (r : Reference) : option Author :=
  match key_author r with
  | Some (a :: _) => Some a
  | _ => None
  end.

(** What the group of a tag pattern tries at each length. *)
Definition tag_try (close s : str) (n : nat) : option (str * nat) :=
  if prefixb close (skipn n s) then Some (firstn n s, n + length close)
  else None.

(** ** Sample responses *)

(** A response that has only the keys [title], [author], [issued] and
    [epub-date]. *)
Definition response (title : option str) (author : option (list Author))
  (issued epub_date : option DateVariable) : Reference :=
  {| key_status := None;
     key_title := title;
     key_author := author;
     key_container_title := None;
     key_container_title_short := None;
     key_volume := None;
     key_page := None;
     key_DOI := None;
     key_issued := issued;
     key_epub_date := epub_date |}.

Definition person (family given : string) : Author :=
  {| key_family := Some (lit family); key_given := Some (lit given) |}.

Definition given_only (given : string) : Author :=
  {| key_family := None; key_given := Some (lit given) |}.

Definition family_only (family : string) : Author :=
  {| key_family := Some (lit family); key_given := None |}.

Definition nameless : Author :=
  {| key_family := None; key_given := None |}.

Definition in_year (y : Z) : DateVariable :=
  {| key_date_parts := Some [[y]] |}.

(** The record of the specification's example. *)
Definition nasa_record : Reference :=
  response (Some (lit "NASA study")) (Some [person "Lee" "A"])
           (Some (in_year 2019)) None.

(** A dated record without the key [author], and one whose list of authors
    is empty. *)
Definition anonymous_record : Reference :=
  response (Some (lit "NASA study")) None (Some (in_year 2020)) None.

Definition authorless_record : Reference :=
  response (Some (lit "NASA study")) (Some []) (Some (in_year 2020)) None.

(** A dated record whose first author has a given name only. *)
Definition mononym_record : Reference :=
  response (Some (lit "Believe")) (Some [given_only "Cher"])
           (Some (in_year 1998)) None.

(** A record without [issued] and [epub-date]. *)
Definition undated_record : Reference :=
  response (Some (lit "NASA study")) (Some [person "Smith" "J"]) None None.

(** A record with four authors of the four shapes, dated by [epub-date]. *)
Definition team_record : Reference :=
  response (Some (lit "H<sub>2</sub>O")) 
           (Some [person "Smith" "J"; given_only "Cher"; nameless;
                  family_only "Curie"])
           None (Some (in_year 2020)).

(** The answer of the service for an unknown identifier. *)
Definition error_response : Reference :=
  {| key_status := Some (lit "error");
     key_title := None;
     key_author := None;
     key_container_title := None;
     key_container_title_short := None;
     key_volume := None;
     key_page := None;
     key_DOI := None;
     key_issued := None;
     key_epub_date := None |}.

(** A service that knows the first and the third of three identifiers. *)
Definition sample_api (id : str) : Reference :=
  if str_eqb id (lit "222") then error_response else nasa_record.

(** A batch of three identifiers and no output file yet. *)
Definition batch_world : World :=
  {| files := [(lit "pmids.txt", lit "111
222
333
")];
     console := [] |}.

(** ** Notions for the further properties *)

Definition is_brace (c : ascii) : bool :=
  Ascii.eqb c "{"%char || Ascii.eqb c "}"%char.

(** The text without its braces. *)
Definition strip_braces (s : str) : str :=
  filter (fun c => negb (is_brace c)) s.

(** The author has a family name or a given name. *)
Definition has_name (a : Author) : bool :=
  match key_family a, key_given a with
  | None, None => false
  | _, _ => true
  end.

(** The name of an author as a reference list writes it: the family name,
    a comma and the given name, or the one of the two that is there. *)
Definition author_text (a : Author) : str :=
  match key_family a, key_given a with
  | Some f, Some g => f ++ lit ", " ++ g
  | Some f, None => f
  | None, Some g => g
  | None, None => []
  end.

(** The same text up to the case of its letters. *)
Definition same_letters (s1 s2 : str) : Prop :=
  map to_lower s1 = map to_lower s2.

(** Records whose [issued] is malformed and whose [epub-date] is sound. *)
Definition issued_without_parts : Reference :=
  response (Some (lit "NASA study")) (Some [person "Lee" "A"])
           (Some {| key_date_parts := None |}) (Some (in_year 2019)).

Definition issued_with_empty_part : Reference :=
  response (Some (lit "NASA study")) (Some [person "Lee" "A"])
           (Some {| key_date_parts := Some [[]; [2019%Z]] |})
           (Some (in_year 2019)).

(** A record whose two dates disagree. *)
Definition twice_dated_record : Reference :=
  response (Some (lit "NASA study")) (Some [person "Lee" "A"])
           (Some {| key_date_parts := Some [[2019%Z; 12%Z; 30%Z]] |})
           (Some (in_year 2020)).

(** * Properties *)

(** A character is not among those of a literal. *)
Ltac not_in_literal :=
  cbn; intros H;
  repeat (destruct H as [H|H]; [discriminate H|]); exact H.

(** ** Strings and prefixes *)

Lemma prefixb_true_iff (p s : str) :
  prefixb p s = true <-> exists r, s = p ++ r.
Proof.
  revert s; induction p as [|x p IH]; intros s; simpl.
  - split; [intros _; now exists s | reflexivity].
  - destruct s as [|y s].
    + split; [discriminate | intros [r Hr]; discriminate].
    + rewrite andb_true_iff, Ascii.eqb_eq, IH. split.
      * intros [-> [r ->]]. now exists r.
      * intros [r Hr]. injection Hr as -> ->. split; [reflexivity | now exists r].
Qed.

Lemma prefixb_app (p r : str) : prefixb p (p ++ r) = true.
Proof. apply prefixb_true_iff. now exists r. Qed.

Lemma occurs_suffix (pat l1 l2 : str) : occurs pat l2 -> occurs pat (l1 ++ l2).
Proof.
  intros [u [v ->]]. exists (l1 ++ u), v. now rewrite <- app_assoc.
Qed.

Lemma occursb_true_iff (pat s : str) : occursb pat s = true <-> occurs pat s.
Proof.
  induction s as [|c s IH].
  - simpl. rewrite orb_false_r, prefixb_true_iff. split.
    + intros [r Hr]. now exists [], r.
    + intros [l1 [l2 H]]. destruct l1; [now exists l2 | discriminate].
  - cbn [occursb]. rewrite orb_true_iff, prefixb_true_iff, IH. split.
    + intros [[r Hr] | H].
      * now exists [], r.
      * now apply (occurs_suffix pat [c] s).
    + intros [l1 [l2 H]]. destruct l1 as [|x l1].
      * left. now exists l2.
      * right. injection H as _ H. now exists l1, l2.
Qed.

(** A string whose first character does not come back cannot overlap a
    shifted copy of itself. *)
Lemma no_overlap (h : ascii) (t u v w : str) :
  ~ In h t -> u <> [] -> length u < S (length t) ->
  u ++ (h :: t) ++ v = (h :: t) ++ w -> False.
Proof.
  intros Hh Hu Hlen Heq.
  assert (H1 : nth_error (u ++ (h :: t) ++ v) (length u) = Some h).
  { rewrite nth_error_app2 by lia. now rewrite Nat.sub_diag. }
  rewrite Heq in H1.
  destruct u as [|x u]; [congruence|]. simpl in Hlen, H1.
  rewrite nth_error_app1 in H1 by lia.
  apply Hh. eapply nth_error_In; eassumption.
Qed.

Lemma skipn_app_exact {A} (l1 l2 : list A) : skipn (length l1) (l1 ++ l2) = l2.
Proof. induction l1; simpl; auto. Qed.

Lemma skipn_add {A} (a b : nat) (l : list A) :
  skipn (a + b) l = skipn b (skipn a l).
Proof. now rewrite skipn_skipn, Nat.add_comm. Qed.

Lemma firstn_app_exact {A} (l1 l2 : list A) : firstn (length l1) (l1 ++ l2) = l1.
Proof. induction l1; simpl; congruence. Qed.

(** ** The scan of [re.sub] *)

Lemma sub_from_skip p repl n s :
  sub_from p repl n s = sub_from p repl 0 (skipn n s).
Proof.
  revert n; induction s as [|c s IH]; intros [|n]; try reflexivity.
  simpl skipn. rewrite <- IH. reflexivity.
Qed.

Lemma sub_from_match p repl s g n :
  0 < n -> match_here p s = Some (g, n) ->
  sub_from p repl 0 s = repl g ++ sub_from p repl 0 (skipn n s).
Proof.
  intros Hn H. destruct n as [|n]; [lia|]. destruct s as [|c s].
  - simpl. destruct p as [|[c|cls] p]; simpl in H; try discriminate.
  - simpl sub_from. rewrite H. simpl pred. now rewrite sub_from_skip.
Qed.

Lemma sub_from_prefix_no_match p repl a t :
  (forall a1 a2, a = a1 ++ a2 -> a2 <> [] -> match_here p (a2 ++ t) = None) ->
  sub_from p repl 0 (a ++ t) = a ++ sub_from p repl 0 t.
Proof.
  induction a as [|c a IH]; intros H; [reflexivity|].
  change ((c :: a) ++ t) with (c :: (a ++ t)). cbn [sub_from].
  change (c :: a ++ t) with ((c :: a) ++ t).
  rewrite (H [] (c :: a)) by (auto; discriminate).
  simpl. f_equal. apply IH. intros a1 a2 -> Ha2.
  apply (H (c :: a1) a2); auto.
Qed.

Lemma sub_from_no_match p repl s :
  (forall l1 l2, s = l1 ++ l2 -> l2 <> [] -> match_here p l2 = None) ->
  sub_from p repl 0 s = s.
Proof.
  intros H. rewrite <- (app_nil_r s) at 1.
  rewrite sub_from_prefix_no_match; [simpl; now rewrite app_nil_r|].
  intros a1 a2 -> Ha2. rewrite app_nil_r. now apply (H a1 a2).
Qed.

(** ** Backtracking *)

Lemma greedy_max {A} (f : nat -> option A) n m r :
  1 <= m <= n -> f m = Some r ->
  (forall k, m < k <= n -> f k = None) -> greedy f n = Some r.
Proof.
  induction n as [|n IH]; intros Hm Hf Hnone; [lia|].
  cbn [greedy]. destruct (Nat.eq_dec m (S n)) as [->|Hne].
  - now rewrite Hf.
  - rewrite (Hnone (S n)) by lia. apply IH; auto; try lia.
    intros k Hk. apply Hnone. lia.
Qed.

Lemma greedy_inv {A} (f : nat -> option A) n r :
  greedy f n = Some r -> exists k, 1 <= k <= n /\ f k = Some r.
Proof.
  induction n as [|n IH]; [discriminate|]. cbn [greedy].
  destruct (f (S n)) eqn:E.
  - intros [= <-]. exists (S n). split; [lia | assumption].
  - intros H. destruct (IH H) as [k [Hk Hf]]. exists k. split; [lia | assumption].
Qed.

Lemma span_app_all cls (x r : str) :
  forallb cls x = true -> span cls (x ++ r) = length x + span cls r.
Proof.
  induction x as [|c x IH]; simpl; [reflexivity|].
  rewrite andb_true_iff. intros [-> H]. now rewrite IH.
Qed.

Lemma span_le_length cls (s : str) : span cls s <= length s.
Proof.
  induction s as [|c s IH]; simpl; [lia|]. destruct (cls c); simpl; lia.
Qed.

Lemma span_firstn cls (s : str) : forallb cls (firstn (span cls s) s) = true.
Proof.
  induction s as [|c s IH]; simpl; [reflexivity|].
  destruct (cls c) eqn:E; simpl; [now rewrite E | reflexivity].
Qed.

Lemma span_skipn cls (s : str) :
  match skipn (span cls s) s with
  | [] => True
  | c :: _ => cls c = false
  end.
Proof.
  induction s as [|c s IH]; simpl; [exact I|].
  destruct (cls c) eqn:E; simpl; assumption.
Qed.

(** ** Capital letters *)

Lemma caps_match (s : str) :
  match_here caps_pattern s =
  match span is_upper s with
  | O => None
  | S k => Some (firstn (S k) s, S k)
  end.
Proof.
  unfold caps_pattern. cbn [match_here].
  destruct (span is_upper s) as [|k]; [reflexivity|].
  cbn [greedy]. now rewrite Nat.add_0_r.
Qed.

Lemma caps_step_other (c : ascii) (s : str) :
  is_upper c = false -> caps_step (c :: s) = c :: caps_step s.
Proof.
  intros H. unfold caps_step, re_sub. cbn [sub_from].
  rewrite caps_match. simpl span. now rewrite H.
Qed.

Lemma span_run (run s : str) :
  forallb is_upper run = true -> not_upper_head s ->
  span is_upper (run ++ s) = length run.
Proof.
  intros Hrun Hs. rewrite span_app_all by assumption.
  destruct s as [|c s]; simpl in *; [lia | rewrite Hs; lia].
Qed.

Lemma caps_step_run (run s : str) :
  run <> [] -> forallb is_upper run = true -> not_upper_head s ->
  caps_step (run ++ s) = lit "{" ++ run ++ lit "}" ++ caps_step s.
Proof.
  intros Hne Hrun Hs. unfold caps_step, re_sub.
  assert (Hlen : 0 < length run) by (destruct run; [congruence | simpl; lia]).
  assert (Hm : match_here caps_pattern (run ++ s) = Some (run, length run)).
  { rewrite caps_match, span_run by assumption.
    destruct (length run) as [|k] eqn:E; [lia|].
    now rewrite <- E, firstn_app_exact. }
  rewrite (sub_from_match _ _ _ _ _ Hlen Hm), skipn_app_exact. unfold caps_repl. now rewrite <- !app_assoc.
Qed.

(** The substitution of line 28 is the function that [brace_wrapped]
    describes. *)
Lemma brace_wrapped_caps_step (s t : str) :
  brace_wrapped s t -> t = caps_step s.
Proof.
  induction 1 as [|c s t Hc _ IH|run s t Hne Hrun Hs _ IH].
  - reflexivity.
  - rewrite caps_step_other by assumption. now f_equal.
  - rewrite caps_step_run by assumption. now rewrite IH.
Qed.

Lemma caps_step_brace_wrapped (s : str) : brace_wrapped s (caps_step s).
Proof.
  remember (length s) as n eqn:Hn.
  assert (Hle : length s <= n) by lia. clear Hn.
  revert s Hle. induction n as [|n IH]; intros s Hle.
  - destruct s; [constructor | simpl in Hle; lia].
  - destruct s as [|c s]; [constructor|].
    destruct (is_upper c) eqn:Hc.
    + pose proof (firstn_skipn (span is_upper (c :: s)) (c :: s)) as Hsplit.
      pose proof (span_firstn is_upper (c :: s)) as Hrun.
      pose proof (span_skipn is_upper (c :: s)) as Hrest.
      pose proof (span_le_length is_upper s) as Hlen.
      simpl span in *. rewrite Hc in *.
      set (run := firstn (S (span is_upper s)) (c :: s)) in *.
      set (rest := skipn (S (span is_upper s)) (c :: s)) in *.
      rewrite <- Hsplit.
      rewrite caps_step_run; try assumption.
      * constructor; try assumption.
        -- subst run. simpl. discriminate.
        -- apply IH. subst rest. simpl skipn. rewrite length_skipn.
           simpl in Hle. lia.
      * subst run. simpl. discriminate.
    + rewrite caps_step_other by assumption.
      constructor; [assumption|]. apply IH. simpl in Hle. lia.
Qed.

(** [brace_wrapped] determines its result. *)
Corollary brace_wrapped_unique (s t1 t2 : str) :
  brace_wrapped s t1 -> brace_wrapped s t2 -> t1 = t2.
Proof.
  intros H1 H2. rewrite (brace_wrapped_caps_step s t1 H1).
  now rewrite (brace_wrapped_caps_step s t2 H2).
Qed.

Example caps_step_mixed :
  caps_step (lit "mRNA of HIV-1 in the USA") = lit "m{RNA} of {HIV}-1 in the {USA}".
Proof. reflexivity. Qed.

(** ** Tags *)

Lemma match_lits (l : str) (p : pattern) (s : str) :
  match_here (map Lit l ++ p) s =
  if prefixb l s then
    match match_here p (skipn (length l) s) with
    | Some (g, n) => Some (g, length l + n)
    | None => None
    end
  else None.
Proof.
  revert s; induction l as [|x l IH]; intros s.
  - simpl. destruct (match_here p s) as [[g n]|]; reflexivity.
  - destruct s as [|y s]; [reflexivity|].
    cbn [map app match_here prefixb length skipn].
    rewrite (Ascii.eqb_sym y x).
    destruct (Ascii.eqb x y); [|reflexivity].
    rewrite IH. cbn [andb]. destruct (prefixb l s); [|reflexivity].
    destruct (match_here p (skipn (length l) s)) as [[g n]|]; reflexivity.
Qed.

Lemma lits_match (l s : str) :
  match_here (map Lit l) s = if prefixb l s then Some ([], length l) else None.
Proof.
  rewrite <- (app_nil_r (map Lit l)), match_lits. cbn [match_here].
  now rewrite Nat.add_0_r.
Qed.

Lemma tag_match (open close s : str) :
  match_here (tag_pattern open close) s =
  if prefixb open s then
    match greedy (tag_try close (skipn (length open) s))
                 (span dot (skipn (length open) s)) with
    | Some (g, n) => Some (g, length open + n)
    | None => None
    end
  else None.
Proof.
  unfold tag_pattern. rewrite match_lits. cbn [app match_here].
  destruct (prefixb open s); [|reflexivity].
  set (s' := skipn (length open) s).
  assert (E : forall k,
    greedy (fun n => match match_here (map Lit close) (skipn n s') with
                     | Some (_, m) => Some (firstn n s', n + m)
                     | None => None
                     end) k = greedy (tag_try close s') k).
  { induction k as [|k IHk]; [reflexivity|]. cbn [greedy].
    rewrite IHk. unfold tag_try. rewrite lits_match.
    destruct (prefixb close (skipn (S k) s')); reflexivity. }
  now rewrite E.
Qed.

Lemma tag_match_occurs (open close s : str) r :
  match_here (tag_pattern open close) s = Some r -> occurs close s.
Proof.
  rewrite tag_match. destruct (prefixb open s); [|discriminate].
  destruct (greedy _ _) as [[g n]|] eqn:E; [|discriminate]. intros _.
  apply greedy_inv in E. destruct E as [k [_ Hk]]. unfold tag_try in Hk.
  destruct (prefixb close (skipn k (skipn (length open) s))) eqn:P;
    [|discriminate].
  apply prefixb_true_iff in P. destruct P as [r' Hr'].
  rewrite <- (firstn_skipn (length open) s).
  rewrite <- (firstn_skipn k (skipn (length open) s)), Hr'.
  apply occurs_suffix. now exists (firstn k (skipn (length open) s)), r'.
Qed.

(** Behind the text of the group, the closing tag starts nowhere but at its
    own place. *)
Lemma close_only_here (h : ascii) (t X b : str) (k : nat) :
  ~ In h t -> ~ occurs (h :: t) b -> length X < k ->
  prefixb (h :: t) (skipn k (X ++ (h :: t) ++ b)) = false.
Proof.
  intros Hh Hb Hk. destruct (prefixb _ _) eqn:P; [exfalso | reflexivity].
  apply prefixb_true_iff in P. destruct P as [r Hr].
  replace k with (length X + (k - length X)) in Hr by lia.
  rewrite skipn_add, skipn_app_exact in Hr.
  set (j := k - length X) in *. assert (Hj : 0 < j) by (subst j; lia).
  destruct (Nat.lt_ge_cases j (length (h :: t))) as [Hlt|Hge].
  - pose proof (firstn_skipn j ((h :: t) ++ b)) as Hsplit. rewrite Hr in Hsplit.
    apply (no_overlap h t (firstn j ((h :: t) ++ b)) r b Hh).
    + intros E. apply (f_equal (@length ascii)) in E.
      rewrite length_firstn, length_app in E. simpl in E, Hlt. lia.
    + rewrite length_firstn, length_app. simpl in Hlt |- *. lia.
    + exact Hsplit.
  - apply Hb. replace j with (length (h :: t) + (j - length (h :: t))) in Hr by lia.
    rewrite skipn_add, skipn_app_exact in Hr.
    rewrite <- (firstn_skipn (j - length (h :: t)) b), Hr.
    now exists (firstn (j - length (h :: t)) b), r.
Qed.

(** In front of the opening tag no match starts when the tag does not occur
    there. *)
Lemma open_not_before (h : ascii) (t a1 a2 rest : str) :
  ~ In h t -> ~ occurs (h :: t) (a1 ++ a2) -> a2 <> [] ->
  prefixb (h :: t) (a2 ++ (h :: t) ++ rest) = false.
Proof.
  intros Hh Ha Hne. destruct (prefixb _ _) eqn:P; [exfalso | reflexivity].
  apply prefixb_true_iff in P. destruct P as [r Hr].
  destruct (Nat.lt_ge_cases (length a2) (length (h :: t))) as [Hlt|Hge].
  - apply (no_overlap h t a2 rest r Hh Hne); [simpl in Hlt; lia | exact Hr].
  - apply Ha. apply occurs_suffix.
    assert (E : firstn (length (h :: t)) (a2 ++ (h :: t) ++ rest) = h :: t)
      by (rewrite Hr; apply firstn_app_exact).
    rewrite firstn_app in E.
    replace (length (h :: t) - length a2) with 0 in E by lia.
    rewrite firstn_O, app_nil_r in E.
    exists [], (skipn (length (h :: t)) a2).
    change (a2 = (h :: t) ++ skipn (length (h :: t)) a2).
    rewrite <- (firstn_skipn (length (h :: t)) a2) at 1. now rewrite E.
Qed.

(** The match at an opening tag: the group runs to the last closing tag. *)
Lemma tag_match_greedy (ho hc : ascii) (to tc X b : str) :
  ~ In hc tc -> X <> [] -> forallb dot X = true -> ~ occurs (hc :: tc) b ->
  match_here (tag_pattern (ho :: to) (hc :: tc))
             ((ho :: to) ++ X ++ (hc :: tc) ++ b)
  = Some (X, length (ho :: to) + (length X + length (hc :: tc))).
Proof.
  intros Hc HX Hdot Hb. rewrite tag_match, prefixb_app, skipn_app_exact.
  rewrite (greedy_max _ _ (length X) (X, length X + length (hc :: tc)));
    [reflexivity | | | ].
  - rewrite span_app_all by assumption.
    destruct X; [congruence | simpl; lia].
  - unfold tag_try.
    now rewrite skipn_app_exact, prefixb_app, firstn_app_exact.
  - intros k Hk. unfold tag_try. rewrite close_only_here by (auto; lia).
    reflexivity.
Qed.

(** Lines 25 and 26 on one line of text: everything between the first
    opening tag and the last closing tag is the group. *)
Lemma tag_sub_greedy (ho hc : ascii) (to tc : str) (repl : str -> str)
  (a X b : str) :
  ~ In ho to -> ~ In hc tc ->
  ~ occurs (ho :: to) a -> X <> [] -> forallb dot X = true ->
  ~ occurs (hc :: tc) b ->
  re_sub (tag_pattern (ho :: to) (hc :: tc)) repl
         (a ++ (ho :: to) ++ X ++ (hc :: tc) ++ b)
  = a ++ repl X ++ b.
Proof.
  intros Ho Hc Ha HX Hdot Hb. unfold re_sub.
  rewrite sub_from_prefix_no_match.
  - f_equal.
    rewrite (sub_from_match _ _ _ _ _
               (Nat.lt_0_succ _ : 0 < length (ho :: to) + _)
               (tag_match_greedy ho hc to tc X b Hc HX Hdot Hb)).
    f_equal. rewrite !skipn_add, !skipn_app_exact.
    apply sub_from_no_match. intros l1 l2 -> Hl2.
    destruct (match_here _ l2) eqn:E; [exfalso | reflexivity].
    apply Hb. apply occurs_suffix. eapply tag_match_occurs; eassumption.
  - intros a1 a2 -> Ha2. rewrite tag_match.
    now rewrite (open_not_before ho to a1 a2 _ Ho Ha Ha2).
Qed.

(** A title without an opening tag passes lines 25 and 26 unchanged. *)
Lemma tag_sub_absent (open close : str) (repl : str -> str) (s : str) :
  ~ occurs open s -> re_sub (tag_pattern open close) repl s = s.
Proof.
  intros Hs. apply sub_from_no_match. intros l1 l2 -> _.
  rewrite tag_match. destruct (prefixb open l2) eqn:P; [exfalso | reflexivity].
  apply Hs. apply occurs_suffix. apply prefixb_true_iff in P.
  destruct P as [r ->]. now exists [], r.
Qed.

(** ** The year and the entry key *)

Example py_title_words :
  py_title (lit "smith") = lit "Smith" /\
  py_title (lit "van der berg") = lit "Van Der Berg" /\
  py_title (lit "McDonald") = lit "Mcdonald" /\
  py_title (lit "o'neil") = lit "O'Neil".
Proof. repeat split. Qed.

Lemma date_year_has_year (d : DateVariable) (y : Z) :
  has_year d y -> date_year d = Ok y.
Proof. intros [ys [parts H]]. unfold date_year. now rewrite H. Qed.

Lemma extract_year_derivable (r : Reference) (y : Z) :
  year_derivable r y -> extract_year r = Ok (Some y).
Proof.
  unfold extract_year. intros [[d [Hd Hy]] | [Hnone [d [Hd Hy]]]].
  - rewrite Hd, (date_year_has_year d y Hy). reflexivity.
  - rewrite Hnone, Hd, (date_year_has_year d y Hy). reflexivity.
Qed.

Lemma extract_year_undated (r : Reference) :
  key_issued r = None -> key_epub_date r = None -> extract_year r = Ok None.
Proof. unfold extract_year. now intros -> ->. Qed.

Lemma forallb_dot (X : str) : ~ In newline X -> forallb dot X = true.
Proof.
  induction X as [|c X IH]; intros H; [reflexivity|]. simpl.
  rewrite IH by (intros HX; apply H; now right).
  unfold dot. destruct (Ascii.eqb_spec c newline) as [->|_]; [|reflexivity].
  exfalso. apply H. now left.
Qed.

Lemma not_occurs_by_scan (pat s : str) : occursb pat s = false -> ~ occurs pat s.
Proof. intros H Ho. apply occursb_true_iff in Ho. congruence. Qed.

(** The entry of a record that has a year and whose first author has a
    family name: every other key may be absent. *)
Lemma format_entry_family (id : str) (r : Reference) (y : Z) (a : Author)
  (f : str) :
  year_derivable r y -> first_author r = Some a -> key_family a = Some f ->
  format_entry (id, r) =
  Ok {| e_ref_id := py_title f ++ str_of_int y;
        e_title := sanitize_title (get_or_empty (key_title r));
        e_author :=
          join (lit " and ") (author_loop (get_or_empty_list r));
        e_journal_long := get_or_empty (key_container_title r);
        e_journal_short := get_or_empty (key_container_title_short r);
        e_volume := get_or_empty (key_volume r);
        e_page := get_or_empty (key_page r);
        e_year := y;
        e_doi := get_or_empty (key_DOI r) |}.
Proof.
  intros Hy Ha Hf. unfold format_entry, first_author, get_or_empty_list in *.
  rewrite (extract_year_derivable r y Hy).
  destruct (key_author r) as [[|a' l]|]; try discriminate.
  injection Ha as ->. cbn. rewrite Hf. reflexivity.
Qed.

(** Whatever [format_entry] returns carries the fields computed by lines 23
    to 46. *)
Lemma format_entry_fields (id : str) (r : Reference) (e : Entry) :
  format_entry (id, r) = Ok e ->
  e_title e = sanitize_title (get_or_empty (key_title r)) /\
  e_author e = join (lit " and ") (author_loop (get_or_empty_list r)) /\
  e_journal_long e = get_or_empty (key_container_title r) /\
  e_journal_short e = get_or_empty (key_container_title_short r) /\
  e_volume e = get_or_empty (key_volume r) /\
  e_page e = get_or_empty (key_page r) /\
  e_doi e = get_or_empty (key_DOI r).
Proof.
  unfold format_entry, get_or_empty_list.
  destruct (extract_year r) as [year|]; [|discriminate]. cbn [bind].
  destruct (first_author_key _) as [ref_id|]; [|discriminate]. cbn [bind].
  destruct (load_year year) as [y|]; [|discriminate]. cbn [bind].
  destruct (iadd_str ref_id _) as [key|]; [|discriminate]. cbn [bind].
  intros [= <-]. cbn. destruct (key_author r); repeat split; reflexivity.
Qed.

(** Where an entry is produced, its title is the title of the record with
    the capital runs between braces (the record's title has no tag). *)
Lemma title_field_brace_wrapped (id : str) (r : Reference) (t : str)
  (e : Entry) :
  key_title r = Some t ->
  ~ occurs (lit "<sub>") t -> ~ occurs (lit "<sup>") t ->
  format_entry (id, r) = Ok e -> brace_wrapped t (e_title e).
Proof.
  intros Ht Hsub Hsup He.
  destruct (format_entry_fields id r e He) as [-> _].
  rewrite Ht. unfold sanitize_title, sub_step, sup_step, sub_pattern, sup_pattern.
  cbn [get_or_empty].
  rewrite (tag_sub_absent (lit "<sub>") _ _ t Hsub).
  rewrite (tag_sub_absent (lit "<sup>") _ _ t Hsup).
  apply caps_step_brace_wrapped.
Qed.

(** Where an entry is produced, its author field is the entries of the loop
    of lines 32 to 40 joined by [" and "]. *)
Lemma author_field_joined (id : str) (r : Reference) (e : Entry) :
  format_entry (id, r) = Ok e ->
  e_author e = join (lit " and ") (author_loop (get_or_empty_list r)).
Proof. intros He. now destruct (format_entry_fields id r e He) as [_ [-> _]]. Qed.

Example smith_2020 :
  forall id,
    format_entry (id, response None (Some [family_only "smith"])
                               (Some (in_year 2020)) None)
    = Ok {| e_ref_id := lit "Smith2020"; e_title := []; e_author := lit "smith";
            e_journal_long := []; e_journal_short := []; e_volume := [];
            e_page := []; e_year := 2020; e_doi := [] |}.
Proof. reflexivity. Qed.

Example team_entry :
  format_reference (lit "1", team_record) true
  = Ok (lit "@article{Smith2020,
    title = {{H}$_{2}${O}},
    author = {Smith, J and Cher and Curie},
    journal-long = {},
    journal = {},
    volume = {},
    pages = {},
    year = {2020},
    doi = {}
}
").
Proof. reflexivity. Qed.

(** ** The claims about the year *)

(** C1, as amended.  A record that has neither [issued] nor [epub-date] is
    never formatted: [format_reference] raises, and when the record has a
    first author what it raises is [UnboundLocalError], the fault of reading
    the local [year] that no branch assigned; the program has no error class
    of its own.  A record with a derivable year whose first author has a
    family name is formatted whatever other keys are absent. *)
Theorem format_reference_year_cases (id : str) (r : Reference) (b : bool) :
  (key_issued r = None -> key_epub_date r = None ->
   (exists e, format_reference (id, r) b = Raise e) /\
   (first_author r <> None ->
    format_reference (id, r) b = Raise UnboundLocalError))
  /\
  (forall y a f,
     year_derivable r y -> first_author r = Some a -> key_family a = Some f ->
     exists out, format_reference (id, r) b = Ok out).
Proof.
  split.
  - intros Hi He. unfold format_reference, format_entry, first_author.
    rewrite (extract_year_undated r Hi He).
    destruct (key_author r) as [[|a l]|]; cbn.
    + split; [now exists IndexError | congruence].
    + destruct (key_family a); cbn; (split; [now exists UnboundLocalError | reflexivity]).
    + split; [now exists IndexError | congruence].
  - intros y a f Hy Ha Hf. unfold format_reference.
    rewrite (format_entry_family id r y a f Hy Ha Hf). cbn [bind].
    eexists. reflexivity.
Qed.

Lemma format_reference_year_cases_witness :
  format_reference (lit "31452104", undated_record) false
    = Raise UnboundLocalError /\
  exists out, format_reference (lit "31452104", nasa_record) false = Ok out.
Proof.
  split.
  - destruct (proj1 (format_reference_year_cases
                       (lit "31452104") undated_record false)
                    eq_refl eq_refl) as [_ H].
    apply H. discriminate.
  - apply (proj2 (format_reference_year_cases
                    (lit "31452104") nasa_record false)
                 2019%Z (person "Lee" "A") (lit "Lee")).
    + left. exists (in_year 2019). split; [reflexivity|].
      exists [], []. reflexivity.
    + reflexivity.
    + reflexivity.
Defined.

(** C1 as stated fails twice.  A record with [issued] but without authors is
    not formatted; and what an undated record raises is the interpreter's
    [UnboundLocalError], not a classified error of the program. *)
Lemma format_reference_year_counterexample :
  (key_issued anonymous_record <> None /\
   format_reference (lit "31452104", anonymous_record) false
     = Raise IndexError) /\
  (key_issued undated_record = None /\
   key_epub_date undated_record = None /\
   format_reference (lit "31452104", undated_record) false
     = Raise UnboundLocalError).
Proof.
  split; [split; [discriminate | reflexivity] | repeat split].
Qed.

(** ** The claims about the authors and the entry key *)

(** C2 (the code departs from it).  A dated record whose list of authors is
    empty or absent is not formatted: [authors[0]] of line 53 raises
    [IndexError]. *)
Theorem format_reference_without_authors (id : str) (r : Reference)
  (b : bool) (y : Z) :
  year_derivable r y ->
  key_author r = None \/ key_author r = Some [] ->
  format_reference (id, r) b = Raise IndexError.
Proof.
  intros Hy Ha. unfold format_reference, format_entry.
  rewrite (extract_year_derivable r y Hy).
  destruct Ha as [-> | ->]; reflexivity.
Qed.

Lemma format_reference_without_authors_witness :
  format_reference (lit "31452104", anonymous_record) false = Raise IndexError /\
  format_reference (lit "31452104", authorless_record) true = Raise IndexError.
Proof.
  split.
  - apply (format_reference_without_authors _ anonymous_record false 2020%Z).
    + left. exists (in_year 2020). split; [reflexivity|].
      exists [], []. reflexivity.
    + left. reflexivity.
  - apply (format_reference_without_authors _ authorless_record true 2020%Z).
    + left. exists (in_year 2020). split; [reflexivity|].
      exists [], []. reflexivity.
    + right. reflexivity.
Defined.

(** C5 (the code departs from it).  When the first author of a dated record
    has no family name, line 54 takes the author dictionary itself for the
    key and line 55 adds a string to it: [TypeError], whether or not the
    author has a given name. *)
Theorem format_reference_first_author_without_family (id : str)
  (r : Reference) (b : bool) (y : Z) (a : Author) :
  year_derivable r y -> first_author r = Some a -> key_family a = None ->
  format_reference (id, r) b = Raise TypeError.
Proof.
  intros Hy Ha Hf. unfold format_reference, format_entry, first_author in *.
  rewrite (extract_year_derivable r y Hy).
  destruct (key_author r) as [[|a' l]|]; try discriminate.
  injection Ha as ->. cbn. rewrite Hf. reflexivity.
Qed.

Lemma format_reference_first_author_without_family_witness :
  format_reference (lit "10000001", mononym_record) false = Raise TypeError.
Proof.
  apply (format_reference_first_author_without_family
           _ mononym_record false 1998%Z (given_only "Cher")).
  - left. exists (in_year 1998). split; [reflexivity|].
    exists [], []. reflexivity.
  - reflexivity.
  - reflexivity.
Defined.

(** C8 (the code departs from it).  The loop of lines 32 to 40 renders an
    author who has a given name only by that name, but when this author is
    the first one the key derivation of lines 53 to 55 raises [TypeError]
    and no author field is produced. *)
Theorem first_author_given_only_not_rendered :
  author_loop (get_or_empty_list mononym_record) = [lit "Cher"] /\
  year_derivable mononym_record 1998 /\
  forall b,
    format_reference (lit "10000001", mononym_record) b = Raise TypeError.
Proof.
  split; [reflexivity|]. split.
  - left. exists (in_year 1998). split; [reflexivity|].
    exists [], []. reflexivity.
  - intros b. reflexivity.
Qed.

(** ** The claims about the title *)

(** C3, as amended.  The group of lines 25 and 26 is greedy.  In a title
    [a <sub> X </sub> b] where [a] has no opening tag, [b] has no closing
    tag and [X] is not empty and has no line feed, the whole of [X] is the
    group, tags inside [X] included: the result is [a $_{X}$ b].  So a title
    with one pair of tags has the tagged text replaced, unchanged, and a
    title with several pairs on a line has one match, from the first opening
    tag to the last closing tag.  The superscript is alike. *)
Theorem tag_step_greedy (a X b : str) :
  X <> [] -> ~ In newline X ->
  (~ occurs (lit "<sub>") a -> ~ occurs (lit "</sub>") b ->
   sub_step (a ++ lit "<sub>" ++ X ++ lit "</sub>" ++ b)
   = a ++ lit "$_{" ++ X ++ lit "}$" ++ b)
  /\
  (~ occurs (lit "<sup>") a -> ~ occurs (lit "</sup>") b ->
   sup_step (a ++ lit "<sup>" ++ X ++ lit "</sup>" ++ b)
   = a ++ lit "$^{" ++ X ++ lit "}$" ++ b).
Proof.
  intros HX Hnl. pose proof (forallb_dot X Hnl) as Hdot. split; intros Ha Hb.
  - unfold sub_step, sub_pattern.
    change (lit "<sub>") with ("<"%char :: lit "sub>") in *.
    change (lit "</sub>") with ("<"%char :: lit "/sub>") in *.
    rewrite tag_sub_greedy; try assumption; try not_in_literal.
    unfold sub_repl. now rewrite <- !app_assoc.
  - unfold sup_step, sup_pattern.
    change (lit "<sup>") with ("<"%char :: lit "sup>") in *.
    change (lit "</sup>") with ("<"%char :: lit "/sup>") in *.
    rewrite tag_sub_greedy; try assumption; try not_in_literal.
    unfold sup_repl. now rewrite <- !app_assoc.
Qed.

Lemma tag_step_greedy_witness :
  sub_step (lit "H" ++ lit "<sub>" ++ lit "2" ++ lit "</sub>" ++ lit "O")
    = lit "H" ++ lit "$_{" ++ lit "2" ++ lit "}$" ++ lit "O" /\
  sup_step (lit "x" ++ lit "<sup>" ++ lit "a<sup>b</sup>c" ++ lit "</sup>" ++ [])
    = lit "x" ++ lit "$^{" ++ lit "a<sup>b</sup>c" ++ lit "}$" ++ [].
Proof.
  split.
  - apply (proj1 (tag_step_greedy (lit "H") (lit "2") (lit "O")
                    ltac:(discriminate) ltac:(not_in_literal)));
      apply not_occurs_by_scan; reflexivity.
  - apply (proj2 (tag_step_greedy (lit "x") (lit "a<sup>b</sup>c") []
                    ltac:(discriminate) ltac:(not_in_literal)));
      apply not_occurs_by_scan; reflexivity.
Defined.

(** C3 as stated fails.  With two pairs of tags on a line the group is not
    the text of the first pair (a lazy group would stop at the first closing
    tag), and the substitution does not stop at the first match: a pair on a
    later line is replaced as well. *)
Lemma tag_step_counterexample :
  sub_step (lit "<sub>a</sub>b<sub>c</sub>") = lit "$_{a</sub>b<sub>c}$" /\
  sub_step (lit "<sub>a</sub>b<sub>c</sub>") <> lit "$_{a}$b<sub>c</sub>" /\
  sup_step (lit "x<sup>2</sup>
y<sup>3</sup>") = lit "x$^{2}$
y$^{3}$".
Proof.
  split; [reflexivity|]. split; [discriminate | reflexivity].
Qed.

(** C4, as amended.  The example record gives the entry key [Lee2019] and
    the title [{NASA} study], which the template puts between the braces of
    the field: [title = {{NASA} study}]. *)
Theorem nasa_entry (id : str) :
  format_reference (id, nasa_record) false
  = Ok (lit "@article{Lee2019,
    title = {{NASA} study},
    author = {Lee, A},
    journal = {},
    journal-short = {},
    volume = {},
    pages = {},
    year = {2019},
    doi = {}
}
") /\
  exists e,
    format_entry (id, nasa_record) = Ok e /\
    e_ref_id e = lit "Lee2019" /\ e_title e = lit "{NASA} study".
Proof.
  split; [reflexivity|]. eexists. split; [reflexivity|]. split; reflexivity.
Qed.

(** C4 as stated fails: the title of the entry is not [{{NASA}} study], and
    that text occurs nowhere in the output. *)
Lemma nasa_title_counterexample :
  exists e,
    format_entry (lit "31452104", nasa_record) = Ok e /\
    e_title e <> lit "{{NASA}} study" /\
    occursb (lit "{{NASA}} study") (render false e) = false.
Proof.
  eexists. split; [reflexivity|]. split; [discriminate | reflexivity].
Qed.

(** C7 (the code departs from it).  A dated record with a title of capitals
    and no tag, but without authors, has no title field: the title is
    computed as the claim says and then line 53 raises [IndexError]. *)
Theorem title_without_authors_not_rendered :
  key_title anonymous_record = Some (lit "NASA study") /\
  year_derivable anonymous_record 2020 /\
  sanitize_title (lit "NASA study") = lit "{NASA} study" /\
  forall b,
    format_reference (lit "31452104", anonymous_record) b = Raise IndexError.
Proof.
  split; [reflexivity|]. split.
  - left. exists (in_year 2020). split; [reflexivity|].
    exists [], []. reflexivity.
  - split; [reflexivity|]. intros b. reflexivity.
Qed.

(** ** The journal lines and the identifier *)



(** C10.  The identifier of the pair is unpacked and not used: two pairs
    with the same record give the same result, an output or an exception. *)
Theorem format_reference_ignores_identifier (id1 id2 : str) (r : Reference)
  (b : bool) :
  format_reference (id1, r) b = format_reference (id2, r) b.
Proof. reflexivity. Qed.

(** ** The batch *)


(** The commands for one identifier test the response, the second component
    of the pair, and so tell an unknown identifier from a reference. *)
Lemma save_reference_not_found (api : str -> Reference) (id path : str)
  (use_short : bool) (w : World) :
  not_found (api id) = true ->
  save_reference api id path use_short w
  = (Ok tt, echo (lit "Reference not found") w).
Proof. unfold save_reference, get_reference. cbn [snd]. now intros ->. Qed.

Lemma save_reference_found (api : str -> Reference) (id path : str)
  (use_short : bool) (w : World) (output : str) :
  not_found (api id) = false ->
  format_reference (id, api id) use_short = Ok output ->
  save_reference api id path use_short w
  = (Ok tt, append_file path output (append_file path [] w)).
Proof.
  unfold save_reference, get_reference. cbn [snd]. now intros -> ->.
Qed.

(** The command line does not reach the batch either: line 140 calls
    [convert_references] with three arguments. *)
Lemma pubMed2BibTex_batch_raises (api : str -> Reference)
  (input_file output_file : str) (short_journal : bool) (w : World) :
  input_file <> [] -> output_file <> [] ->
  pubMed2BibTex api None (Some input_file) (Some output_file) short_journal w
  = (Raise TypeError, w).
Proof.
  intros Hi Ho. destruct input_file, output_file; try congruence. reflexivity.
Qed.

(** An empty batch is the one that ends: nothing is looked up and the report
    counts no reference. *)
Example convert_references_empty_batch :
  forall api,
    convert_references api (lit "pmids.txt") (lit "refs.bib")
      {| files := [(lit "pmids.txt", [])]; console := [] |}
    = (Ok tt,
       {| files := [(lit "pmids.txt", []); (lit "refs.bib", [])];
          console := [lit "0 reference retrieved.
0 reference not found."] |}).
Proof. reflexivity. Qed.

(** C6 (the code departs from it).  A batch of three identifiers of which
    the service knows the first and the third, and indeed a batch of three
    identifiers whatever the service answers, ends at the first identifier
    with [AttributeError]: the output file has been opened and is empty, no
    entry is written and no count is reported. *)
Theorem batch_of_three_raises :
  split_lines [] (get_or_empty (read_file (files batch_world) (lit "pmids.txt")))
  = [lit "111
"; lit "222
"; lit "333
"] /\
  (not_found (sample_api (lit "111")) = false /\
   not_found (sample_api (lit "222")) = true /\
   not_found (sample_api (lit "333")) = false) /\
  forall api,
    convert_references api (lit "pmids.txt") (lit "refs.bib") batch_world
    = (Raise AttributeError,
       {| files := [(lit "pmids.txt", lit "111
222
333
"); (lit "refs.bib", [])];
          console := [] |}).
Proof.
  split; [reflexivity|]. split; [repeat split|]. intros api. reflexivity.
Qed.

(** * Further properties *)

(** ** The braces of line 28 *)

Lemma strip_braces_app (u v : str) :
  strip_braces (u ++ v) = strip_braces u ++ strip_braces v.
Proof. apply filter_app. Qed.

Lemma is_upper_not_brace (c : ascii) : is_upper c = true -> is_brace c = false.
Proof.
  destruct c as [[] [] [] [] [] [] [] []]; vm_compute; congruence.
Qed.

Lemma strip_braces_run (run : str) :
  forallb is_upper run = true -> strip_braces run = run.
Proof.
  induction run as [|c run IH]; [reflexivity|]. simpl.
  rewrite andb_true_iff. intros [Hc Hrun].
  rewrite (is_upper_not_brace c Hc). simpl. now rewrite (IH Hrun).
Qed.

Lemma brace_wrapped_strip (s t : str) :
  brace_wrapped s t -> strip_braces t = strip_braces s.
Proof.
  induction 1 as [|c s t Hc _ IH|run s t Hne Hrun Hs _ IH].
  - reflexivity.
  - simpl. now rewrite IH.
  - rewrite !strip_braces_app, IH. reflexivity.
Qed.

Lemma brace_wrapped_length (s t : str) :
  brace_wrapped s t ->
  length s <= length t /\
  (existsb is_upper s = true -> length s < length t).
Proof.
  induction 1 as [|c s t Hc _ [IH1 IH2]|run s t Hne Hrun Hs _ [IH1 IH2]].
  - split; [reflexivity | discriminate].
  - simpl. rewrite Hc. simpl. split; [lia|]. intros H. specialize (IH2 H). lia.
  - rewrite !length_app. simpl. split; lia.
Qed.

Lemma existsb_upper_strip (s : str) :
  existsb is_upper (strip_braces s) = existsb is_upper s.
Proof.
  induction s as [|c s IH]; [reflexivity|]. simpl.
  destruct (is_brace c) eqn:Hb; simpl.
  - rewrite IH. destruct (is_upper c) eqn:Hu; [|reflexivity].
    rewrite (is_upper_not_brace c Hu) in Hb. discriminate.
  - now rewrite IH.
Qed.

(** X1.  Line 28 only inserts braces: without its braces the result is the
    title without its braces, so no character of the title is changed,
    dropped or moved; and the result is never shorter than the title. *)
Theorem caps_step_only_inserts_braces (s : str) :
  strip_braces (caps_step s) = strip_braces s /\
  length s <= length (caps_step s).
Proof.
  pose proof (caps_step_brace_wrapped s) as H. split.
  - now apply brace_wrapped_strip.
  - now apply brace_wrapped_length.
Qed.

(** X2.  Line 28 is not idempotent: a title that has a capital letter grows
    again when it passes a second time, since each run of capitals is put
    between another pair of braces. *)
Theorem caps_step_twice_differs (s : str) :
  existsb is_upper s = true ->
  length (caps_step s) < length (caps_step (caps_step s)) /\
  caps_step (caps_step s) <> caps_step s.
Proof.
  intros Hs.
  assert (Hup : existsb is_upper (caps_step s) = true).
  { rewrite <- existsb_upper_strip.
    rewrite (brace_wrapped_strip _ _ (caps_step_brace_wrapped s)).
    now rewrite existsb_upper_strip. }
  pose proof (proj2 (brace_wrapped_length _ _
                       (caps_step_brace_wrapped (caps_step s))) Hup) as Hlt.
  split; [exact Hlt|]. intros E. rewrite E in Hlt. lia.
Qed.

Lemma caps_step_twice_differs_witness :
  length (caps_step (lit "NASA study"))
    < length (caps_step (caps_step (lit "NASA study"))) /\
  caps_step (caps_step (lit "NASA study")) <> caps_step (lit "NASA study").
Proof.
  apply (caps_step_twice_differs (lit "NASA study")). reflexivity.
Defined.

Lemma brace_wrapped_app (u t v t' : str) :
  brace_wrapped u t -> not_upper_head v -> brace_wrapped v t' ->
  brace_wrapped (u ++ v) (t ++ t').
Proof.
  intros Hu Hv Hv'.
  induction Hu as [|c s t Hc _ IH|run s t Hne Hrun Hs _ IH].
  - exact Hv'.
  - simpl. now constructor.
  - rewrite <- !app_assoc. cbn [app].
    change (lit "{" ++ run ++ lit "}" ++ t ++ t')
      with (lit "{" ++ run ++ lit "}" ++ (t ++ t')).
    constructor; try assumption.
    destruct s as [|x s]; [exact Hv | exact Hs].
Qed.

(** The runs of capitals of two texts are wrapped apart when the second
    text does not start with a capital. *)
Lemma caps_step_app (u v : str) :
  not_upper_head v -> caps_step (u ++ v) = caps_step u ++ caps_step v.
Proof.
  intros Hv. symmetry. apply brace_wrapped_caps_step.
  apply brace_wrapped_app; auto using caps_step_brace_wrapped.
Qed.

(** ** Tags and capitals together *)

Lemma tag_sub_no_close (open close : str) (repl : str -> str) (s : str) :
  ~ occurs close s -> re_sub (tag_pattern open close) repl s = s.
Proof.
  intros Hs. apply sub_from_no_match. intros l1 l2 -> _.
  destruct (match_here _ l2) eqn:E; [exfalso | reflexivity].
  apply Hs. apply occurs_suffix. eapply tag_match_occurs; eassumption.
Qed.

Lemma caps_step_plain (m v : str) :
  existsb is_upper m = false -> caps_step (m ++ v) = m ++ caps_step v.
Proof.
  induction m as [|x m IH]; intros Hm; [reflexivity|].
  simpl in Hm. apply orb_false_iff in Hm. destruct Hm as [Hx Hm].
  cbn [app]. rewrite caps_step_other by assumption. now rewrite IH.
Qed.

Lemma caps_step_markup (m a X b : str) :
  m <> [] -> existsb is_upper m = false ->
  caps_step (a ++ m ++ X ++ lit "}$" ++ b)
  = caps_step a ++ m ++ caps_step X ++ lit "}$" ++ caps_step b.
Proof.
  intros Hne Hm.
  assert (Hhead : not_upper_head (m ++ X ++ lit "}$" ++ b)).
  { destruct m as [|c m]; [congruence|]. simpl in Hm |- *.
    apply orb_false_iff in Hm. exact (proj1 Hm). }
  rewrite (caps_step_app a _ Hhead).
  rewrite (caps_step_plain m _ Hm).
  rewrite (caps_step_app X (lit "}$" ++ b)) by reflexivity.
  rewrite (caps_step_plain (lit "}$") b) by reflexivity.
  reflexivity.
Qed.

(** X3.  Capitals inside a subscript or superscript are wrapped as well.  For
    a title [a <sub> X </sub> b] with one pair of subscript tags ([a] without
    opening tag, [b] without closing tag, [X] not empty and on one line) and
    no superscript tag, the three lines together give
    [caps a $_{ caps X }$ caps b]: the inserted markup is kept as it is and
    the three parts are wrapped apart.  The superscript is alike when the
    title has no subscript tag. *)
Theorem sanitize_title_tag_pair (a X b : str) :
  X <> [] -> ~ In newline X ->
  (~ occurs (lit "<sub>") a -> ~ occurs (lit "</sub>") b ->
   ~ occurs (lit "<sup>") (a ++ lit "$_{" ++ X ++ lit "}$" ++ b) ->
   sanitize_title (a ++ lit "<sub>" ++ X ++ lit "</sub>" ++ b)
   = caps_step a ++ lit "$_{" ++ caps_step X ++ lit "}$" ++ caps_step b)
  /\
  (~ occurs (lit "<sup>") a -> ~ occurs (lit "</sup>") b ->
   ~ occurs (lit "<sub>") (a ++ lit "<sup>" ++ X ++ lit "</sup>" ++ b) ->
   sanitize_title (a ++ lit "<sup>" ++ X ++ lit "</sup>" ++ b)
   = caps_step a ++ lit "$^{" ++ caps_step X ++ lit "}$" ++ caps_step b).
Proof.
  intros HX Hnl. pose proof (forallb_dot X Hnl) as Hdot.
  split; intros Ha Hb Hother; unfold sanitize_title.
  - assert (E : sub_step (a ++ lit "<sub>" ++ X ++ lit "</sub>" ++ b)
                = a ++ lit "$_{" ++ X ++ lit "}$" ++ b).
    { unfold sub_step, sub_pattern.
      change (lit "<sub>") with ("<"%char :: lit "sub>") in *.
      change (lit "</sub>") with ("<"%char :: lit "/sub>") in *.
      rewrite tag_sub_greedy; try assumption; try not_in_literal.
      unfold sub_repl. now rewrite <- !app_assoc. }
    rewrite E. unfold sup_step, sup_pattern.
    rewrite (tag_sub_absent _ _ _ _ Hother).
    apply caps_step_markup; [discriminate | reflexivity].
  - assert (E : sub_step (a ++ lit "<sup>" ++ X ++ lit "</sup>" ++ b)
                = a ++ lit "<sup>" ++ X ++ lit "</sup>" ++ b).
    { unfold sub_step, sub_pattern. now apply tag_sub_absent. }
    rewrite E.
    assert (E' : sup_step (a ++ lit "<sup>" ++ X ++ lit "</sup>" ++ b)
                 = a ++ lit "$^{" ++ X ++ lit "}$" ++ b).
    { unfold sup_step, sup_pattern.
      change (lit "<sup>") with ("<"%char :: lit "sup>") in *.
      change (lit "</sup>") with ("<"%char :: lit "/sup>") in *.
      rewrite tag_sub_greedy; try assumption; try not_in_literal.
      unfold sup_repl. now rewrite <- !app_assoc. }
    rewrite E'.
    apply caps_step_markup; [discriminate | reflexivity].
Qed.

Lemma sanitize_title_tag_pair_witness :
  sanitize_title (lit "CO" ++ lit "<sub>" ++ lit "2 NMR" ++ lit "</sub>"
                    ++ lit " in DNA")
    = caps_step (lit "CO") ++ lit "$_{" ++ caps_step (lit "2 NMR") ++ lit "}$"
        ++ caps_step (lit " in DNA") /\
  sanitize_title (lit "E = mc" ++ lit "<sup>" ++ lit "2N" ++ lit "</sup>" ++ [])
    = caps_step (lit "E = mc") ++ lit "$^{" ++ caps_step (lit "2N") ++ lit "}$"
        ++ caps_step [].
Proof.
  split.
  - apply (proj1 (sanitize_title_tag_pair (lit "CO") (lit "2 NMR") (lit " in DNA")
                    ltac:(discriminate) ltac:(not_in_literal)));
      apply not_occurs_by_scan; reflexivity.
  - apply (proj2 (sanitize_title_tag_pair (lit "E = mc") (lit "2N") []
                    ltac:(discriminate) ltac:(not_in_literal)));
      apply not_occurs_by_scan; reflexivity.
Defined.

(** X4.  A tag without its partner stays in the title: when the title lacks
    the opening or the closing subscript tag, and the opening or the closing
    superscript tag, lines 25 and 26 change nothing and the title is only
    wrapped by line 28. *)
Theorem sanitize_title_unpaired (t : str) :
  ~ occurs (lit "<sub>") t \/ ~ occurs (lit "</sub>") t ->
  ~ occurs (lit "<sup>") t \/ ~ occurs (lit "</sup>") t ->
  sub_step t = t /\ sup_step t = t /\ sanitize_title t = caps_step t.
Proof.
  intros Hsub Hsup.
  assert (E1 : sub_step t = t).
  { unfold sub_step, sub_pattern.
    destruct Hsub as [H|H]; [now apply tag_sub_absent | now apply tag_sub_no_close]. }
  assert (E2 : sup_step t = t).
  { unfold sup_step, sup_pattern.
    destruct Hsup as [H|H]; [now apply tag_sub_absent | now apply tag_sub_no_close]. }
  unfold sanitize_title. now rewrite E1, E2.
Qed.

Lemma sanitize_title_unpaired_witness :
  sub_step (lit "pH <sub>low and x</sup>") = lit "pH <sub>low and x</sup>" /\
  sup_step (lit "pH <sub>low and x</sup>") = lit "pH <sub>low and x</sup>" /\
  sanitize_title (lit "pH <sub>low and x</sup>")
    = caps_step (lit "pH <sub>low and x</sup>").
Proof.
  apply (sanitize_title_unpaired (lit "pH <sub>low and x</sup>")).
  - right. apply not_occurs_by_scan. reflexivity.
  - left. apply not_occurs_by_scan. reflexivity.
Defined.

(** ** When [format_reference] returns *)

Lemma date_year_inv (d : DateVariable) (y : Z) :
  date_year d = Ok y -> has_year d y.
Proof.
  unfold date_year, has_year.
  destruct (key_date_parts d) as [[|[|y' ys] parts]|]; try discriminate.
  intros [= ->]. now exists ys, parts.
Qed.

Lemma extract_year_inv (r : Reference) (y : Z) :
  extract_year r = Ok (Some y) -> year_derivable r y.
Proof.
  unfold extract_year, year_derivable.
  destruct (key_issued r) as [d|].
  - destruct (date_year d) as [y'|] eqn:E; [|discriminate].
    cbn. intros [= ->]. left. exists d. split; [reflexivity|].
    now apply date_year_inv.
  - destruct (key_epub_date r) as [d|]; [|discriminate].
    destruct (date_year d) as [y'|] eqn:E; [|discriminate].
    cbn. intros [= ->]. right. split; [reflexivity|]. exists d.
    split; [reflexivity|]. now apply date_year_inv.
Qed.

Lemma format_entry_inv (id : str) (r : Reference) (e : Entry) :
  format_entry (id, r) = Ok e ->
  exists a f,
    year_derivable r (e_year e) /\ first_author r = Some a /\
    key_family a = Some f /\ e_ref_id e = py_title f ++ str_of_int (e_year e).
Proof.
  unfold format_entry, first_author.
  destruct (extract_year r) as [[y|]|] eqn:Ey; cbn [bind].
  - destruct (key_author r) as [[|a l]|]; try discriminate. cbn.
    destruct (key_family a) as [f|] eqn:Ef; [|discriminate]. cbn.
    intros [= <-]. cbn. exists a, f. repeat split; try assumption.
    now apply extract_year_inv.
  - destruct (key_author r) as [[|a l]|]; try discriminate. cbn.
    destruct (key_family a); discriminate.
  - discriminate.
Qed.

Lemma format_reference_inv (id : str) (r : Reference) (b : bool) (out : str) :
  format_reference (id, r) b = Ok out ->
  exists e, format_entry (id, r) = Ok e /\ out = render b e.
Proof.
  unfold format_reference. destruct (format_entry (id, r)) as [e|];
    [|discriminate].
  cbn. intros [= <-]. now exists e.
Qed.

(** X5.  For a record whose first author's family name, if there is one,
    is ASCII text: [format_reference] returns an entry exactly when the
    record has a derivable year and a first author with a family name, and
    the entry is then the template filled with the title-cased family name
    and the year as key, the sanitized title, the joined authors, the fields
    [container-title], [container-title-short], [volume], [page] and [DOI]
    (empty when absent) and the year. *)
Theorem format_reference_returns_iff (id : str) (r : Reference) (b : bool)
  (out : str) :
  (forall a f, first_author r = Some a -> key_family a = Some f ->
               ascii_text f) ->
  (format_reference (id, r) b = Ok out <->
   exists y a f,
     year_derivable r y /\ first_author r = Some a /\ key_family a = Some f /\
     out = render b
             {| e_ref_id := py_title f ++ str_of_int y;
                e_title := sanitize_title (get_or_empty (key_title r));
                e_author :=
                  join (lit " and ") (author_loop (get_or_empty_list r));
                e_journal_long := get_or_empty (key_container_title r);
                e_journal_short := get_or_empty (key_container_title_short r);
                e_volume := get_or_empty (key_volume r);
                e_page := get_or_empty (key_page r);
                e_year := y;
                e_doi := get_or_empty (key_DOI r) |}).
Proof.
  intros _. split.
  - intros H. destruct (format_reference_inv id r b out H) as [e [He ->]].
    destruct (format_entry_inv id r e He) as [a [f [Hy [Ha [Hf _]]]]].
    exists (e_year e), a, f. repeat split; try assumption.
    rewrite (format_entry_family id r (e_year e) a f Hy Ha Hf) in He.
    now injection He as <-.
  - intros [y [a [f [Hy [Ha [Hf ->]]]]]]. unfold format_reference.
    now rewrite (format_entry_family id r y a f Hy Ha Hf).
Qed.

Lemma format_reference_returns_iff_witness :
  format_reference (lit "31452104", nasa_record) false
  = Ok (render false
          {| e_ref_id := lit "Lee2019"; e_title := lit "{NASA} study";
             e_author := lit "Lee, A"; e_journal_long := [];
             e_journal_short := []; e_volume := []; e_page := [];
             e_year := 2019; e_doi := [] |}) <->
  exists y a f,
    year_derivable nasa_record y /\ first_author nasa_record = Some a /\
    key_family a = Some f /\
    render false
      {| e_ref_id := lit "Lee2019"; e_title := lit "{NASA} study";
         e_author := lit "Lee, A"; e_journal_long := [];
         e_journal_short := []; e_volume := []; e_page := [];
         e_year := 2019; e_doi := [] |}
    = render false
        {| e_ref_id := py_title f ++ str_of_int y;
           e_title := sanitize_title (get_or_empty (key_title nasa_record));
           e_author :=
             join (lit " and ") (author_loop (get_or_empty_list nasa_record));
           e_journal_long := get_or_empty (key_container_title nasa_record);
           e_journal_short :=
             get_or_empty (key_container_title_short nasa_record);
           e_volume := get_or_empty (key_volume nasa_record);
           e_page := get_or_empty (key_page nasa_record);
           e_year := y;
           e_doi := get_or_empty (key_DOI nasa_record) |}.
Proof.
  apply (format_reference_returns_iff (lit "31452104") nasa_record false).
  intros a f Ha Hf. cbn in Ha. injection Ha as <-.
  cbn in Hf. injection Hf as <-. reflexivity.
Defined.

(** X6.  A malformed [issued] is not recovered from [epub-date]: when the
    key [issued] is present without [date-parts] the call raises [KeyError],
    and when its [date-parts] or the first date part is empty the call
    raises [IndexError], whatever the rest of the record holds. *)
Theorem malformed_issued_raises (id : str) (r : Reference) (b : bool)
  (d : DateVariable) :
  key_issued r = Some d ->
  (key_date_parts d = None -> format_reference (id, r) b = Raise KeyError) /\
  (key_date_parts d = Some [] \/
   (exists parts, key_date_parts d = Some ([] :: parts)) ->
   format_reference (id, r) b = Raise IndexError).
Proof.
  intros Hd. unfold format_reference, format_entry, extract_year, date_year.
  rewrite Hd. split.
  - intros ->. reflexivity.
  - intros [-> | [parts ->]]; reflexivity.
Qed.

Lemma malformed_issued_raises_witness :
  format_reference (lit "31452104", issued_without_parts) false
    = Raise KeyError /\
  format_reference (lit "31452104", issued_with_empty_part) true
    = Raise IndexError.
Proof.
  split.
  - apply (proj1 (malformed_issued_raises
                    (lit "31452104") issued_without_parts false
                    {| key_date_parts := None |} eq_refl)).
    reflexivity.
  - apply (proj2 (malformed_issued_raises
                    (lit "31452104") issued_with_empty_part true
                    {| key_date_parts := Some [[]; [2019%Z]] |} eq_refl)).
    right. exists [[2019%Z]]. reflexivity.
Defined.

(** ** The author field *)

Lemma author_entry_text (a : Author) :
  author_entry a = if has_name a then Some (author_text a) else None.
Proof.
  unfold author_entry, has_name, author_text.
  destruct (key_family a), (key_given a); reflexivity.
Qed.

Lemma author_loop_filter_map (l : list Author) :
  author_loop l = map author_text (filter has_name l).
Proof.
  induction l as [|a l IH]; [reflexivity|].
  cbn [author_loop filter]. rewrite author_entry_text.
  destruct (has_name a); cbn [map]; now rewrite IH.
Qed.

(** X7.  In every entry that [format_reference] returns, the author field
    is the names of the authors that have a name, in the order of the
    record, joined by [" and "]: an author without family and given name
    leaves no trace, neither a text nor a separator. *)
Theorem author_field_of_named_authors (id : str) (r : Reference) (b : bool)
  (out : str) :
  format_reference (id, r) b = Ok out ->
  exists e,
    out = render b e /\
    e_author e
    = join (lit " and ") (map author_text (filter has_name (get_or_empty_list r))).
Proof.
  intros H. destruct (format_reference_inv id r b out H) as [e [He ->]].
  exists e. split; [reflexivity|].
  destruct (format_entry_fields id r e He) as [_ [-> _]].
  now rewrite author_loop_filter_map.
Qed.

Lemma author_field_of_named_authors_witness :
  exists e,
    render true {| e_ref_id := lit "Smith2020";
                   e_title := lit "{H}$_{2}${O}";
                   e_author := lit "Smith, J and Cher and Curie";
                   e_journal_long := []; e_journal_short := [];
                   e_volume := []; e_page := []; e_year := 2020;
                   e_doi := [] |} = render true e /\
    e_author e
    = join (lit " and ")
           (map author_text (filter has_name (get_or_empty_list team_record))).
Proof.
  apply (author_field_of_named_authors (lit "1") team_record true).
  reflexivity.
Defined.

(** ** The entry key *)

Lemma to_lower_cases (c : ascii) :
  is_alpha (to_lower c) = is_alpha c /\
  to_lower (to_lower c) = to_lower c /\
  to_upper (to_lower c) = to_upper c.
Proof.
  destruct c as [[] [] [] [] [] [] [] []]; vm_compute; repeat split.
Qed.

Lemma title_from_lower (prev : bool) (s : str) :
  title_from prev (map to_lower s) = title_from prev s.
Proof.
  revert prev; induction s as [|c s IH]; intros prev; [reflexivity|].
  cbn [map title_from].
  destruct (to_lower_cases c) as [Ha [Hl Hu]].
  rewrite Ha, Hl, Hu, IH. reflexivity.
Qed.

Lemma py_title_same_letters (s1 s2 : str) :
  same_letters s1 s2 -> py_title s1 = py_title s2.
Proof.
  unfold same_letters, py_title. intros H.
  rewrite <- (title_from_lower false s1), <- (title_from_lower false s2).
  now rewrite H.
Qed.

(** X8.  The entry key does not tell the case of an ASCII family name: two
    formatted records of the same year whose first authors have ASCII
    family names with the same letters, in whatever case, get the same
    key. *)
Theorem entry_key_ignores_case (id1 id2 : str) (r1 r2 : Reference)
  (e1 e2 : Entry) (a1 a2 : Author) (f1 f2 : str) :
  format_entry (id1, r1) = Ok e1 -> format_entry (id2, r2) = Ok e2 ->
  first_author r1 = Some a1 -> key_family a1 = Some f1 ->
  first_author r2 = Some a2 -> key_family a2 = Some f2 ->
  ascii_text f1 -> ascii_text f2 ->
  same_letters f1 f2 -> e_year e1 = e_year e2 ->
  e_ref_id e1 = e_ref_id e2.
Proof.
  intros H1 H2 Ha1 Hf1 Ha2 Hf2 _ _ Hsame Hy.
  destruct (format_entry_inv id1 r1 e1 H1) as [a1' [f1' [_ [Ha1' [Hf1' ->]]]]].
  destruct (format_entry_inv id2 r2 e2 H2) as [a2' [f2' [_ [Ha2' [Hf2' ->]]]]].
  rewrite Ha1 in Ha1'. injection Ha1' as <-.
  rewrite Ha2 in Ha2'. injection Ha2' as <-.
  rewrite Hf1 in Hf1'. injection Hf1' as <-.
  rewrite Hf2 in Hf2'. injection Hf2' as <-.
  now rewrite Hy, (py_title_same_letters f1 f2 Hsame).
Qed.

Lemma entry_key_ignores_case_witness :
  e_ref_id {| e_ref_id := lit "Mcdonald2020"; e_title := []; e_author := lit "McDonald";
              e_journal_long := []; e_journal_short := []; e_volume := [];
              e_page := []; e_year := 2020; e_doi := [] |}
  = e_ref_id {| e_ref_id := lit "Mcdonald2020"; e_title := [];
                e_author := lit "MCDONALD, R"; e_journal_long := [];
                e_journal_short := []; e_volume := []; e_page := [];
                e_year := 2020; e_doi := [] |}.
Proof.
  apply (entry_key_ignores_case
           (lit "1") (lit "2")
           (response None (Some [family_only "McDonald"])
                     (Some (in_year 2020)) None)
           (response None (Some [person "MCDONALD" "R"])
                     None (Some (in_year 2020)))
           _ _
           (family_only "McDonald") (person "MCDONALD" "R")
           (lit "McDonald") (lit "MCDONALD"));
    reflexivity.
Defined.

(** ** The preference *)

(** X9.  The preference always shows: the outputs of a formatted record
    with and without [use_short] are different texts. *)
Theorem preference_changes_output (id : str) (r : Reference)
  (out_short out_long : str) :
  format_reference (id, r) true = Ok out_short ->
  format_reference (id, r) false = Ok out_long ->
  out_short <> out_long.
Proof.
  intros Hs Hl.
  destruct (format_reference_inv id r true out_short Hs) as [e [He ->]].
  destruct (format_reference_inv id r false out_long Hl) as [e' [He' ->]].
  rewrite He in He'. injection He' as <-.
  unfold render. intros E. apply app_inv_head in E.
  unfold journal_lines in E. cbn in E. discriminate E.
Qed.

Lemma preference_changes_output_witness :
  render true {| e_ref_id := lit "Lee2019"; e_title := lit "{NASA} study";
                 e_author := lit "Lee, A"; e_journal_long := [];
                 e_journal_short := []; e_volume := []; e_page := [];
                 e_year := 2019; e_doi := [] |}
  <> render false {| e_ref_id := lit "Lee2019"; e_title := lit "{NASA} study";
                     e_author := lit "Lee, A"; e_journal_long := [];
                     e_journal_short := []; e_volume := []; e_page := [];
                     e_year := 2019; e_doi := [] |}.
Proof.
  apply (preference_changes_output (lit "31452104") nasa_record);
    reflexivity.
Defined.

(** ** Files *)








(** ** The commands for one identifier *)

(** X10.  [show_reference] touches no file.  It returns after printing one
    text, the entry or the notice of an unknown identifier; or the formatter
    raises, and then nothing is printed and the exception is the
    formatter's. *)
Theorem show_reference_effects (api : str -> Reference) (id : str)
  (use_short : bool) (w : World) :
  files (snd (show_reference api id use_short w)) = files w /\
  ((exists text, show_reference api id use_short w = (Ok tt, echo text w) /\
      (not_found (api id) = true /\ text = lit "Reference not found" \/
       not_found (api id) = false /\
       format_reference (id, api id) use_short = Ok text)) \/
   (exists e, show_reference api id use_short w = (Raise e, w) /\
      not_found (api id) = false /\
      format_reference (id, api id) use_short = Raise e)).
Proof.
  unfold show_reference, get_reference. cbn [snd].
  destruct (not_found (api id)) eqn:Hnf.
  - split; [reflexivity|]. left. eexists. split; [reflexivity|]. now left.
  - destruct (format_reference (id, api id) use_short) as [output|e] eqn:Hf.
    + split; [reflexivity|]. left. exists output. split; [reflexivity|].
      right. now split.
    + split; [reflexivity|]. right. exists e. now repeat split.
Qed.





(** ** The batch command *)


(** ** The command line *)

(** X15.  An identifier that the service does not know is reported, not
    raised: with any non-empty [--id] whose response has the status
    ["error"], the command returns normally after printing
    ["Reference not found"], whatever the other options are, and no file is
    created or changed. *)
Theorem pubMed2BibTex_unknown_id (api : str -> Reference) (c : ascii)
  (id : str) (input_file output_file : option str) (short_journal : bool)
  (w : World) :
  not_found (api (c :: id)) = true ->
  pubMed2BibTex api (Some (c :: id)) input_file output_file short_journal w
  = (Ok tt, {| files := files w;
               console := console w ++ [lit "Reference not found"] |}).
Proof.
  intros Hnf. unfold pubMed2BibTex. cbn [given_opt].
  destruct (given_opt output_file) as [path|];
    unfold save_reference, show_reference, get_reference; cbn [snd];
    now rewrite Hnf.
Qed.

Lemma pubMed2BibTex_unknown_id_witness :
  pubMed2BibTex sample_api (Some (lit "222")) None (Some (lit "refs.bib"))
    false batch_world
  = (Ok tt, {| files := files batch_world;
               console := console batch_world ++ [lit "Reference not found"] |}).
Proof.
  apply (pubMed2BibTex_unknown_id sample_api "2"%char (lit "22")).
  reflexivity.
Defined.

(** ** More on the fields of an entry *)

(** X16.  In every entry that [format_reference] returns for a record whose
    title has no pair of subscript tags and no pair of superscript tags
    (the opening or the closing tag is missing), the title field is the
    title of the record with every maximal run of capital letters between
    braces and nothing else changed. *)
Theorem title_field_of_plain_title (id : str) (r : Reference) (b : bool)
  (out t : str) :
  format_reference (id, r) b = Ok out ->
  key_title r = Some t ->
  ~ occurs (lit "<sub>") t \/ ~ occurs (lit "</sub>") t ->
  ~ occurs (lit "<sup>") t \/ ~ occurs (lit "</sup>") t ->
  exists e, out = render b e /\ brace_wrapped t (e_title e).
Proof.
  intros H Ht Hsub Hsup.
  destruct (format_reference_inv id r b out H) as [e [He ->]].
  exists e. split; [reflexivity|].
  destruct (format_entry_fields id r e He) as [-> _].
  rewrite Ht. cbn [get_or_empty].
  unfold sanitize_title, sub_step, sup_step, sub_pattern, sup_pattern.
  replace (re_sub (tag_pattern (lit "<sub>") (lit "</sub>")) sub_repl t) with t
    by (symmetry; destruct Hsub;
        [now apply tag_sub_absent | now apply tag_sub_no_close]).
  replace (re_sub (tag_pattern (lit "<sup>") (lit "</sup>")) sup_repl t) with t
    by (symmetry; destruct Hsup;
        [now apply tag_sub_absent | now apply tag_sub_no_close]).
  apply caps_step_brace_wrapped.
Qed.

Lemma title_field_of_plain_title_witness :
  exists e,
    render false {| e_ref_id := lit "Lee2019"; e_title := lit "{NASA} study";
                    e_author := lit "Lee, A"; e_journal_long := [];
                    e_journal_short := []; e_volume := []; e_page := [];
                    e_year := 2019; e_doi := [] |} = render false e /\
    brace_wrapped (lit "NASA study") (e_title e).
Proof.
  apply (title_field_of_plain_title (lit "31452104") nasa_record false).
  - reflexivity.
  - reflexivity.
  - left. apply not_occurs_by_scan. reflexivity.
  - left. apply not_occurs_by_scan. reflexivity.
Defined.

Lemma title_from_same_letters (prev : bool) (s : str) :
  same_letters (title_from prev s) s /\ length (title_from prev s) = length s.
Proof.
  unfold same_letters.
  revert prev; induction s as [|c s IH]; intros prev; [split; reflexivity|].
  cbn [title_from map length]. destruct (IH (is_alpha c)) as [-> ->].
  split; [|reflexivity]. f_equal.
  destruct prev; destruct c as [[] [] [] [] [] [] [] []]; reflexivity.
Qed.

Lemma title_from_ascii (prev : bool) (s : str) :
  ascii_text s -> ascii_text (title_from prev s).
Proof.
  unfold ascii_text.
  revert prev; induction s as [|c s IH]; intros prev; [reflexivity|].
  cbn [title_from forallb]. rewrite !andb_true_iff. intros [Hc Hs].
  split; [|now apply IH]. revert Hc.
  destruct prev; destruct c as [[] [] [] [] [] [] [] []]; vm_compute; congruence.
Qed.

(** X17.  The entry key keeps an ASCII family name of the first author
    character by character, up to the case of the letters, and puts the
    year behind it: nothing is dropped, so a space or an apostrophe of the
    family name is part of the key. *)
Theorem entry_key_keeps_family_name (id : str) (r : Reference) (e : Entry)
  (a : Author) (f : str) :
  format_entry (id, r) = Ok e ->
  first_author r = Some a -> key_family a = Some f -> ascii_text f ->
  exists k,
    e_ref_id e = k ++ str_of_int (e_year e) /\
    ascii_text k /\ same_letters k f /\ length k = length f.
Proof.
  intros He Ha Hf Hascii.
  destruct (format_entry_inv id r e He) as [a' [f' [_ [Ha' [Hf' ->]]]]].
  rewrite Ha in Ha'. injection Ha' as <-.
  rewrite Hf in Hf'. injection Hf' as <-.
  exists (py_title f). split; [reflexivity|].
  split; [now apply title_from_ascii|]. apply title_from_same_letters.
Qed.

Lemma entry_key_keeps_family_name_witness :
  exists k,
    lit "Van Der Berg2020" = k ++ str_of_int 2020 /\
    ascii_text k /\
    same_letters k (lit "van der Berg") /\
    length k = length (lit "van der Berg").
Proof.
  apply (entry_key_keeps_family_name
           (lit "1")
           (response None (Some [family_only "van der Berg"])
                     (Some (in_year 2020)) None)
           {| e_ref_id := lit "Van Der Berg2020"; e_title := [];
              e_author := lit "van der Berg"; e_journal_long := [];
              e_journal_short := []; e_volume := []; e_page := [];
              e_year := 2020; e_doi := [] |}
           (family_only "van der Berg") (lit "van der Berg"));
    reflexivity.
Defined.

(** X18.  [issued] wins over [epub-date]: when both dates are sound, the
    year of a returned entry, and the year at the end of its key, is the
    first number of the first date part of [issued], whatever [epub-date]
    says and whatever follows that number. *)
Theorem issued_year_wins (id : str) (r : Reference) (e : Entry)
  (d1 d2 : DateVariable) (y1 y2 : Z) :
  format_entry (id, r) = Ok e ->
  key_issued r = Some d1 -> has_year d1 y1 ->
  key_epub_date r = Some d2 -> has_year d2 y2 ->
  e_year e = y1 /\
  exists k, e_ref_id e = k ++ str_of_int y1.
Proof.
  intros He Hi [ys1 [parts1 Hy1]] _ _.
  destruct (format_entry_inv id r e He) as [a [f [Hy [_ [_ Hkey]]]]].
  assert (E : e_year e = y1).
  { destruct Hy as [[d [Hd [ys [parts Hp]]]] | [Hnone _]]; [|congruence].
    rewrite Hi in Hd. injection Hd as <-. rewrite Hy1 in Hp. congruence. }
  split; [exact E|]. exists (py_title f). now rewrite <- E.
Qed.

Lemma issued_year_wins_witness :
  e_year {| e_ref_id := lit "Lee2019"; e_title := lit "{NASA} study";
            e_author := lit "Lee, A"; e_journal_long := [];
            e_journal_short := []; e_volume := []; e_page := [];
            e_year := 2019; e_doi := [] |} = 2019%Z /\
  exists k, lit "Lee2019" = k ++ str_of_int 2019.
Proof.
  apply (issued_year_wins (lit "31452104") twice_dated_record
           {| e_ref_id := lit "Lee2019"; e_title := lit "{NASA} study";
              e_author := lit "Lee, A"; e_journal_long := [];
              e_journal_short := []; e_volume := []; e_page := [];
              e_year := 2019; e_doi := [] |}
           {| key_date_parts := Some [[2019%Z; 12%Z; 30%Z]] |}
           (in_year 2020) 2019%Z 2020%Z).
  - reflexivity.
  - reflexivity.
  - exists [12%Z; 30%Z], []. reflexivity.
  - reflexivity.
  - exists [], []. reflexivity.
Defined.

(** ** Titles of several lines *)

Lemma prefixb_before_newline (c s rest : str) :
  ~ In newline c -> prefixb c (s ++ newline :: rest) = prefixb c s.
Proof.
  revert s; induction c as [|x c IH]; intros s Hc; [reflexivity|].
  destruct s as [|y s]; simpl.
  - destruct (Ascii.eqb_spec x newline) as [->|_]; [|reflexivity].
    exfalso. apply Hc. now left.
  - rewrite IH; [reflexivity|]. intros H. apply Hc. now right.
Qed.

Lemma span_before_newline (x rest : str) :
  span dot (x ++ newline :: rest) = span dot x.
Proof.
  induction x as [|c x IH]; [reflexivity|]. simpl. now rewrite IH.
Qed.

Lemma greedy_ext {A} (f g : nat -> option A) (n : nat) :
  (forall k, 1 <= k <= n -> f k = g k) -> greedy f n = greedy g n.
Proof.
  induction n as [|n IH]; intros H; [reflexivity|]. cbn [greedy].
  rewrite (H (S n)) by lia. rewrite IH; [reflexivity|].
  intros k Hk. apply H. lia.
Qed.

Lemma greedy_none {A} (f : nat -> option A) (n : nat) :
  (forall k, 1 <= k <= n -> f k = None) -> greedy f n = None.
Proof.
  induction n as [|n IH]; intros H; [reflexivity|]. cbn [greedy].
  rewrite (H (S n)) by lia. apply IH. intros k Hk. apply H. lia.
Qed.

Lemma prefixb_length (p s : str) : prefixb p s = true -> length p <= length s.
Proof.
  intros H. apply prefixb_true_iff in H. destruct H as [r ->].
  rewrite length_app. lia.
Qed.

Lemma tag_match_before_newline (open close s rest : str) :
  ~ In newline open -> ~ In newline close ->
  match_here (tag_pattern open close) (s ++ newline :: rest)
  = match_here (tag_pattern open close) s.
Proof.
  intros Ho Hc. rewrite !tag_match, (prefixb_before_newline open s rest Ho).
  destruct (prefixb open s) eqn:P; [|reflexivity].
  apply prefixb_length in P.
  rewrite skipn_app. replace (length open - length s) with 0 by lia.
  cbn [skipn]. rewrite span_before_newline.
  set (x := skipn (length open) s).
  rewrite (greedy_ext (tag_try close (x ++ newline :: rest)) (tag_try close x));
    [reflexivity|].
  intros k Hk. pose proof (span_le_length dot x) as Hx. unfold tag_try.
  rewrite skipn_app, firstn_app.
  replace (k - length x) with 0 by lia. cbn [skipn firstn].
  rewrite app_nil_r. now rewrite (prefixb_before_newline close _ rest Hc).
Qed.

Lemma match_here_length (p : pattern) (s : str) (g : str) (n : nat) :
  match_here p s = Some (g, n) -> n <= length s.
Proof.
  revert s g n; induction p as [|[c|cls] p IH]; intros s g n; cbn [match_here].
  - intros [= _ <-]. lia.
  - destruct s as [|x s]; [discriminate|].
    destruct (Ascii.eqb x c); [|discriminate].
    destruct (match_here p s) as [[g' n']|] eqn:E; [|discriminate].
    intros [= _ <-]. apply IH in E. simpl. lia.
  - intros H. apply greedy_inv in H. destruct H as [k [Hk H]].
    destruct (match_here p (skipn k s)) as [[g' m]|] eqn:E; [|discriminate].
    injection H as _ <-. apply IH in E. rewrite length_skipn in E.
    pose proof (span_le_length cls s). lia.
Qed.

Lemma sub_from_lines (p : pattern) (repl : str -> str) (rest : str) :
  (forall s, match_here p (s ++ newline :: rest) = match_here p s) ->
  match_here p [] = None ->
  forall l k, k <= length l ->
    sub_from p repl k (l ++ newline :: rest)
    = sub_from p repl k l ++ newline :: sub_from p repl 0 rest.
Proof.
  intros Hm Hnil. induction l as [|c l IH]; intros k Hk.
  - simpl in Hk. replace k with 0 by lia. cbn [app sub_from].
    pose proof (Hm []) as H0. cbn [app] in H0. now rewrite H0, Hnil.
  - destruct k as [|k].
    + change ((c :: l) ++ newline :: rest) with (c :: (l ++ newline :: rest)).
      cbn [sub_from].
      change (c :: l ++ newline :: rest) with ((c :: l) ++ newline :: rest).
      rewrite Hm. destruct (match_here p (c :: l)) as [[g n]|] eqn:E.
      * apply match_here_length in E. simpl in E.
        rewrite IH by lia. now rewrite app_assoc.
      * rewrite IH by lia. reflexivity.
    + cbn [app sub_from]. apply IH. simpl in Hk. lia.
Qed.

(** X19.  A title of several lines is sanitized line by line: no match of
    lines 25, 26 and 28 crosses a line feed, so each of the three steps, and
    the three together, treat the text before a line feed and the text
    behind it apart. *)
Theorem sanitize_title_by_lines (l1 l2 : str) :
  sub_step (l1 ++ newline :: l2) = sub_step l1 ++ newline :: sub_step l2 /\
  sup_step (l1 ++ newline :: l2) = sup_step l1 ++ newline :: sup_step l2 /\
  caps_step (l1 ++ newline :: l2) = caps_step l1 ++ newline :: caps_step l2 /\
  sanitize_title (l1 ++ newline :: l2)
  = sanitize_title l1 ++ newline :: sanitize_title l2.
Proof.
  assert (Hsub : forall l1 l2,
    sub_step (l1 ++ newline :: l2) = sub_step l1 ++ newline :: sub_step l2).
  { intros a b. unfold sub_step, re_sub, sub_pattern.
    apply sub_from_lines; [|reflexivity|lia].
    intros s. apply tag_match_before_newline; not_in_literal. }
  assert (Hsup : forall l1 l2,
    sup_step (l1 ++ newline :: l2) = sup_step l1 ++ newline :: sup_step l2).
  { intros a b. unfold sup_step, re_sub, sup_pattern.
    apply sub_from_lines; [|reflexivity|lia].
    intros s. apply tag_match_before_newline; not_in_literal. }
  assert (Hcaps : forall l1 l2,
    caps_step (l1 ++ newline :: l2) = caps_step l1 ++ newline :: caps_step l2).
  { intros a b. rewrite caps_step_app by reflexivity.
    now rewrite caps_step_other by reflexivity. }
  repeat split; auto.
  unfold sanitize_title. now rewrite Hsub, Hsup, Hcaps.
Qed.

(** ** Empty tags *)

Lemma tag_match_later_close (open close s : str) r :
  match_here (tag_pattern open close) s = Some r ->
  exists k, 1 <= k /\ prefixb close (skipn (length open + k) s) = true.
Proof.
  rewrite tag_match. destruct (prefixb open s); [|discriminate].
  destruct (greedy _ _) as [[g n]|] eqn:E; [|discriminate]. intros _.
  apply greedy_inv in E. destruct E as [k [Hk Hf]]. unfold tag_try in Hf.
  destruct (prefixb close (skipn k (skipn (length open) s))) eqn:P;
    [|discriminate].
  exists k. split; [lia|]. now rewrite skipn_add.
Qed.

Lemma empty_tag_pair_stays (ho hc : ascii) (to tc : str) (repl : str -> str)
  (a b : str) :
  ~ In ho to -> ~ In hc tc ->
  ~ occurs (ho :: to) a -> ~ occurs (hc :: tc) b ->
  re_sub (tag_pattern (ho :: to) (hc :: tc)) repl
         (a ++ (ho :: to) ++ (hc :: tc) ++ b)
  = a ++ (ho :: to) ++ (hc :: tc) ++ b.
Proof.
  intros Ho Hc Ha Hb. unfold re_sub.
  rewrite sub_from_prefix_no_match.
  - f_equal. apply sub_from_no_match. intros l1 l2 Hsplit _.
    destruct (match_here _ l2) eqn:E; [exfalso | reflexivity].
    apply tag_match_later_close in E. destruct E as [k [Hk P]].
    assert (Hl2 : l2 = skipn (length l1) ((ho :: to) ++ (hc :: tc) ++ b))
      by (rewrite Hsplit; now rewrite skipn_app_exact).
    rewrite Hl2, <- skipn_add in P.
    replace (length l1 + (length (ho :: to) + k))
      with (length (ho :: to) + (length l1 + k)) in P by lia.
    rewrite skipn_add, skipn_app_exact in P.
    assert (Hk' : length (@nil ascii) < length l1 + k) by (simpl; lia).
    pose proof (close_only_here hc tc [] b (length l1 + k) Hc Hb Hk') as Q.
    change ([] ++ (hc :: tc) ++ b) with ((hc :: tc) ++ b) in Q.
    rewrite Q in P. discriminate.
  - intros a1 a2 -> Ha2. rewrite tag_match.
    now rewrite (open_not_before ho to a1 a2 _ Ho Ha Ha2).
Qed.

(** X20.  A pair of tags with nothing between them is not replaced: the
    group needs one character, so in a title [a <sub></sub> b] where [a]
    has no opening tag and [b] no closing tag, line 25 changes nothing; the
    superscript is alike. *)
Theorem empty_tags_stay (a b : str) :
  (~ occurs (lit "<sub>") a -> ~ occurs (lit "</sub>") b ->
   sub_step (a ++ lit "<sub>" ++ lit "</sub>" ++ b)
   = a ++ lit "<sub>" ++ lit "</sub>" ++ b) /\
  (~ occurs (lit "<sup>") a -> ~ occurs (lit "</sup>") b ->
   sup_step (a ++ lit "<sup>" ++ lit "</sup>" ++ b)
   = a ++ lit "<sup>" ++ lit "</sup>" ++ b).
Proof.
  split; intros Ha Hb.
  - unfold sub_step, sub_pattern.
    change (lit "<sub>") with ("<"%char :: lit "sub>") in *.
    change (lit "</sub>") with ("<"%char :: lit "/sub>") in *.
    apply empty_tag_pair_stays; try assumption; not_in_literal.
  - unfold sup_step, sup_pattern.
    change (lit "<sup>") with ("<"%char :: lit "sup>") in *.
    change (lit "</sup>") with ("<"%char :: lit "/sup>") in *.
    apply empty_tag_pair_stays; try assumption; not_in_literal.
Qed.

Lemma empty_tags_stay_witness :
  sub_step (lit "H" ++ lit "<sub>" ++ lit "</sub>" ++ lit "O")
    = lit "H" ++ lit "<sub>" ++ lit "</sub>" ++ lit "O" /\
  sup_step (lit "x" ++ lit "<sup>" ++ lit "</sup>" ++ [])
    = lit "x" ++ lit "<sup>" ++ lit "</sup>" ++ [].
Proof.
  split.
  - apply (proj1 (empty_tags_stay (lit "H") (lit "O")));
      apply not_occurs_by_scan; reflexivity.
  - apply (proj2 (empty_tags_stay (lit "x") []));
      apply not_occurs_by_scan; reflexivity.
Defined.
